(** * Hollow Creek: the animatronic AI and the night clock of [game.js]

    A shallow embedding of the game logic of [src/game.js]: the module-level
    state, [startNewGame], [beginGamePlay] (its part after the preload and the
    hour ticker it installs), [updateAI], [triggerEntry] and the visible part
    of [handleTap].  Drawing, asset loading, audio and the Cassidy overlay
    are left out: they do not touch the state modelled here.  The source at
    hand ends inside [handleTap]; [startNewFromGesture] and what follows it
    are not modelled.

    Numbers.  [Date.now()] timestamps, nights, hours, power and camera ids are
    integers ([Z]).  The night multipliers (1.6, 1.25, ...) and the intervals
    computed from them are read as exact rationals ([Q]); lemma
    [intervals_exact] checks with binary64 arithmetic that every product the
    code forms from its own tables is the same integer in IEEE arithmetic.
    A value returned by [Math.random()] is a rational [u]; its contract
    [0 <= u < 1] is a hypothesis wherever a result depends on it.

    The relocation draw.  The model forms [Math.random()*arr.length] exactly;
    the code rounds it to binary64, and for a draw within 2^-52 of a boundary
    [i/arr.length] the rounded product can reach the next integer, so that
    the code picks the next index (example [draw_at_boundary]).  The product
    rounded to binary64 is [round64]; away from the boundaries both readings
    pick the same index (lemma [draw_inside]), and the statements that name
    the index drawn are made there. *)

From Stdlib Require Import ZArith QArith Qround Qminmax Qpower Bool List Lia Lqa.
From Stdlib Require Floats Uint63 String.
Import PrimFloat.
Import ListNotations.

Set Implicit Arguments.
Open Scope Z_scope.

(** ** JavaScript helpers *)

Module JS.

(** [x < y] on numbers. *)
Definition ltb (x y : Q) : bool := negb (Qle_bool y x).

(** [Math.floor]. *)
Definition floor (x : Q) : Z := Qfloor x.

(** [arr[i]]: [None] is [undefined]. *)
Definition index {A} (arr : list A) (i : Z) : option A :=
  if i <? 0 then None else nth_error arr (Z.to_nat i).

(** [x || d] for a table lookup [x]: [undefined] and [0] are falsy. *)
Definition or_default (x : option Q) (d : Q) : Q :=
  match x with
  | Some q => if Qeq_bool q 0 then d else q
  | None => d
  end.

(** [c === m] for a camera slot [c] (number or [undefined]) and a number. *)
Definition same_cam (c : option Z) (m : Z) : bool :=
  match c with
  | Some x => x =? m
  | None => false
  end.

End JS.

(** ** Agent definitions ([animDefs]) *)

Inductive AnimName : Type := vale | patch | lulla | rust.

Definition AnimName_eqb (x y : AnimName) : bool :=
  match x, y with
  | vale, vale | patch, patch | lulla, lulla | rust, rust => true
  | _, _ => false
  end.

Module Def.
Record t : Type := mk {
  allowed : list Z;
  start : Z;
  baseInterval : Z;
  activeFrom : Z
}.
End Def.

Definition animDefs (k : AnimName) : Def.t :=
  match k with
  | vale  => Def.mk [1; 3; 5] 1 25000 3
  | patch => Def.mk [1; 2; 4] 1 28000 2
  | lulla => Def.mk [1; 3; 4; 5] 1 32000 1
  | rust  => Def.mk [6] 6 42000 5
  end.

(** [Object.keys(animDefs)], in insertion order. *)
Definition Object_keys : list AnimName := [vale; patch; lulla; rust].

(** ** Runtime objects ([anims]) *)

Record Anim : Type := mkAnim {
  name : AnimName;
  cam : option Z;
  lastMove : Z;
  baseInterval : Z;
  inOffice : bool;
  active : bool;
  lastSeen : Z
}.

Definition set_cam (v : option Z) (a : Anim) : Anim :=
  mkAnim (name a) v (lastMove a) (baseInterval a) (inOffice a) (active a) (lastSeen a).
Definition set_lastMove (v : Z) (a : Anim) : Anim :=
  mkAnim (name a) (cam a) v (baseInterval a) (inOffice a) (active a) (lastSeen a).
Definition set_inOffice (v : bool) (a : Anim) : Anim :=
  mkAnim (name a) (cam a) (lastMove a) (baseInterval a) v (active a) (lastSeen a).
Definition set_active (v : bool) (a : Anim) : Anim :=
  mkAnim (name a) (cam a) (lastMove a) (baseInterval a) (inOffice a) v (lastSeen a).
Definition set_lastSeen (v : Z) (a : Anim) : Anim :=
  mkAnim (name a) (cam a) (lastMove a) (baseInterval a) (inOffice a) (active a) v.

(** The object [anims]: one slot per key of [animDefs]. *)
Record Anims : Type := mkAnims {
  slot_vale : Anim;
  slot_patch : Anim;
  slot_lulla : Anim;
  slot_rust : Anim
}.

Definition get (k : AnimName) (t : Anims) : Anim :=
  match k with
  | vale => slot_vale t
  | patch => slot_patch t
  | lulla => slot_lulla t
  | rust => slot_rust t
  end.

Definition put (k : AnimName) (a : Anim) (t : Anims) : Anims :=
  match k with
  | vale => mkAnims a (slot_patch t) (slot_lulla t) (slot_rust t)
  | patch => mkAnims (slot_vale t) a (slot_lulla t) (slot_rust t)
  | lulla => mkAnims (slot_vale t) (slot_patch t) a (slot_rust t)
  | rust => mkAnims (slot_vale t) (slot_patch t) (slot_lulla t) a
  end.

(** The object literal built for key [k] at load time; [tm] and [ts] are the
    two [Date.now()] readings. *)
Definition newAnim (k : AnimName) (tm ts : Z) : Anim :=
  mkAnim k (Some (Def.start (animDefs k))) tm (Def.baseInterval (animDefs k))
         false false ts.

(** ** The state *)

Record World : Type := mkWorld {
  started : bool;
  monitorOpen : bool;
  monitorSingle : option Z;           (* [None] is [null] *)
  night : Z;
  hour : Z;
  power : Z;
  doorLeftClosed : bool;
  doorRightClosed : bool;
  anims : Anims;
  (* the environment of the script *)
  clock : Z;                          (* what [Date.now()] returns *)
  console : list AnimName;            (* the 'ENTRY:' lines, oldest first *)
  timeouts : list (Z * AnimName);     (* pending [setTimeout]s of [triggerEntry]: due time, agent *)
  tickers : nat;                      (* hour tickers installed by [setInterval] *)
  preloading : nat                    (* calls of [beginGamePlay] waiting in [await preloadAll()] *)
}.

Definition set_started v w :=
  mkWorld v (monitorOpen w) (monitorSingle w) (night w) (hour w) (power w)
          (doorLeftClosed w) (doorRightClosed w) (anims w)
          (clock w) (console w) (timeouts w) (tickers w) (preloading w).
Definition set_monitorOpen v w :=
  mkWorld (started w) v (monitorSingle w) (night w) (hour w) (power w)
          (doorLeftClosed w) (doorRightClosed w) (anims w)
          (clock w) (console w) (timeouts w) (tickers w) (preloading w).
Definition set_monitorSingle v w :=
  mkWorld (started w) (monitorOpen w) v (night w) (hour w) (power w)
          (doorLeftClosed w) (doorRightClosed w) (anims w)
          (clock w) (console w) (timeouts w) (tickers w) (preloading w).
Definition set_night v w :=
  mkWorld (started w) (monitorOpen w) (monitorSingle w) v (hour w) (power w)
          (doorLeftClosed w) (doorRightClosed w) (anims w)
          (clock w) (console w) (timeouts w) (tickers w) (preloading w).
Definition set_hour v w :=
  mkWorld (started w) (monitorOpen w) (monitorSingle w) (night w) v (power w)
          (doorLeftClosed w) (doorRightClosed w) (anims w)
          (clock w) (console w) (timeouts w) (tickers w) (preloading w).
Definition set_power v w :=
  mkWorld (started w) (monitorOpen w) (monitorSingle w) (night w) (hour w) v
          (doorLeftClosed w) (doorRightClosed w) (anims w)
          (clock w) (console w) (timeouts w) (tickers w) (preloading w).
Definition set_doorLeftClosed v w :=
  mkWorld (started w) (monitorOpen w) (monitorSingle w) (night w) (hour w) (power w)
          v (doorRightClosed w) (anims w)
          (clock w) (console w) (timeouts w) (tickers w) (preloading w).
Definition set_doorRightClosed v w :=
  mkWorld (started w) (monitorOpen w) (monitorSingle w) (night w) (hour w) (power w)
          (doorLeftClosed w) v (anims w)
          (clock w) (console w) (timeouts w) (tickers w) (preloading w).
Definition set_anims v w :=
  mkWorld (started w) (monitorOpen w) (monitorSingle w) (night w) (hour w) (power w)
          (doorLeftClosed w) (doorRightClosed w) v
          (clock w) (console w) (timeouts w) (tickers w) (preloading w).
Definition set_clock v w :=
  mkWorld (started w) (monitorOpen w) (monitorSingle w) (night w) (hour w) (power w)
          (doorLeftClosed w) (doorRightClosed w) (anims w)
          v (console w) (timeouts w) (tickers w) (preloading w).
Definition set_console v w :=
  mkWorld (started w) (monitorOpen w) (monitorSingle w) (night w) (hour w) (power w)
          (doorLeftClosed w) (doorRightClosed w) (anims w)
          (clock w) v (timeouts w) (tickers w) (preloading w).
Definition set_timeouts v w :=
  mkWorld (started w) (monitorOpen w) (monitorSingle w) (night w) (hour w) (power w)
          (doorLeftClosed w) (doorRightClosed w) (anims w)
          (clock w) (console w) v (tickers w) (preloading w).
Definition set_tickers v w :=
  mkWorld (started w) (monitorOpen w) (monitorSingle w) (night w) (hour w) (power w)
          (doorLeftClosed w) (doorRightClosed w) (anims w)
          (clock w) (console w) (timeouts w) v (preloading w).
Definition set_preloading v w :=
  mkWorld (started w) (monitorOpen w) (monitorSingle w) (night w) (hour w) (power w)
          (doorLeftClosed w) (doorRightClosed w) (anims w)
          (clock w) (console w) (timeouts w) (tickers w) v.

(** The state once the script has been loaded: the [let] initialisers and the
    [forEach] that fills [anims].  [stamps k] are the two [Date.now()]
    readings taken for agent [k], [t0] the time at the end of the load. *)
Definition loaded (stamps : AnimName -> Z * Z) (t0 : Z) : World :=
  let mk k := newAnim k (fst (stamps k)) (snd (stamps k)) in
  mkWorld false false None 1 0 100 false false
          (mkAnims (mk vale) (mk patch) (mk lulla) (mk rust))
          t0 [] [] 0%nat 0%nat.

(** ** The menu and the start of a game *)

(** [startNewGame], up to the [await] in [beginGamePlay]: the clock is reset,
    the game is marked started, and one call of [beginGamePlay] waits for
    the preload.  [startContinue] is the same function. *)
Definition startNewGame (w : World) : World :=
  set_preloading (S (preloading w))
    (set_power 100 (set_hour 0 (set_night 1 (set_started true w)))).

Definition startContinue (w : World) : World := startNewGame w.

(** [Object.keys(anims).forEach(k => anims[k].active = (night >= animDefs[k].activeFrom))]. *)
Definition initFlag (k : AnimName) (w : World) : World :=
  set_anims
    (put k (set_active (night w >=? Def.activeFrom (animDefs k)) (get k (anims w)))
         (anims w)) w.

Definition initFlags (w : World) : World :=
  fold_left (fun w k => initFlag k w) Object_keys w.

(** [beginGamePlay] after [await preloadAll()]: the flags are initialised and
    the hour ticker is installed. *)
Definition beginGamePlay_resume (w : World) : World :=
  set_tickers (S (tickers w)) (initFlags (set_preloading (pred (preloading w)) w)).

(** A new game whose preload completes before anything else happens. *)
Definition newGame (w : World) : World := beginGamePlay_resume (startNewGame w).

(** ** The hour ticker *)

(** The callback given to [setInterval]; [u] is the value of [Math.random()]. *)
Definition hourTick (u : Q) (w : World) : World :=
  if negb (started w) then w
  else
    let w1 := set_hour (hour w + 1) w in
    let w2 := if 7 <? hour w1
              then set_hour 0 (set_night (Z.min 7 (night w1 + 1)) w1)
              else w1 in
    let w3 := set_power (Z.max 0 (power w2 - JS.floor (u * 6))) w2 in
    initFlags w3.

(** ** The difficulty table *)

Definition NIGHT_SPEED (n : Z) : option Q :=
  match n with
  | 1 => Some 1.6%Q
  | 2 => Some 1.25%Q
  | 3 => Some 1.0%Q
  | 4 => Some 0.95%Q
  | 5 => Some 0.85%Q
  | 6 => Some 0.6%Q
  | 7 => Some 0.5%Q
  | _ => None
  end.

(** [NIGHT_SPEED[night] || 1.0]. *)
Definition speed (n : Z) : Q := JS.or_default (NIGHT_SPEED n) 1.0%Q.

(** [Math.max(700, a.baseInterval * (NIGHT_SPEED[night] || 1.0))]. *)
Definition interval_of (n : Z) (a : Anim) : Q :=
  Qmax 700 (inject_Z (baseInterval a) * speed n).

(** ** [triggerEntry] and its timeout *)

(** The delay given to [setTimeout]. *)
Definition ENTRY_MS : Z := 2200.

(** [triggerEntry(name)]: the console line and the timeout; the jumpscare
    sound is not modelled. *)
Definition triggerEntry (nm : AnimName) (w : World) : World :=
  set_timeouts (timeouts w ++ [(clock w + ENTRY_MS, nm)])
    (set_console (console w ++ [nm]) w).

(** The callback of that timeout, run when [Date.now()] is [clock w]. *)
Definition entryExpired (nm : AnimName) (w : World) : World :=
  set_anims
    (put nm (set_lastMove (clock w) (set_inOffice false (get nm (anims w))))
         (anims w)) w.

(** ** [updateAI] *)

(** The relocation block; [u] is the value of [Math.random()]. *)
Definition moveStep (now : Z) (u : Q) (interval : Q) (a : Anim) : Anim :=
  if JS.ltb interval (inject_Z (now - lastMove a)) then
    let arr := Def.allowed (animDefs (name a)) in
    let a1 := set_cam (JS.index arr (JS.floor (u * inject_Z (Z.of_nat (length arr))))) a in
    let a2 := set_lastMove now a1 in
    set_lastSeen now a2
  else a.

(** The [if(monitorOpen)] block. *)
Definition watchStep (now : Z) (mOpen : bool) (mSingle : option Z) (a : Anim) : Anim :=
  if mOpen then
    match mSingle with
    | None => set_lastSeen now a
    | Some m => if JS.same_cam (cam a) m then set_lastSeen now a else a
    end
  else a.

(** The four entry rules, in the order of the source.  Each returns the agent
    and the names [triggerEntry] is called with. *)
Definition ruleRust (now : Z) (a : Anim) : Anim * list AnimName :=
  if AnimName_eqb (name a) rust then
    if (30000 <? now - lastSeen a) && negb (inOffice a)
    then (set_inOffice true a, [name a])
    else (a, [])
  else (a, []).

Definition ruleVale (doorRight : bool) (a : Anim) : Anim * list AnimName :=
  if AnimName_eqb (name a) vale && JS.same_cam (cam a) 3 && negb doorRight
  then (set_inOffice true a, [vale])
  else (a, []).

Definition rulePatch (doorLeft : bool) (a : Anim) : Anim * list AnimName :=
  if AnimName_eqb (name a) patch && JS.same_cam (cam a) 6 && negb doorLeft
  then (set_inOffice true a, [patch])
  else (a, []).

Definition ruleLulla (now : Z) (interval : Q) (doorRight : bool) (a : Anim)
  : Anim * list AnimName :=
  if AnimName_eqb (name a) lulla && JS.same_cam (cam a) 3 && negb doorRight then
    if JS.ltb (inject_Z (now - lastMove a)) (interval * 0.45)
    then (set_inOffice true a, [lulla])
    else (a, [])
  else (a, []).

Definition entryStep (now : Z) (interval : Q) (doorLeft doorRight : bool) (a : Anim)
  : Anim * list AnimName :=
  let '(a1, e1) := ruleRust now a in
  let '(a2, e2) := ruleVale doorRight a1 in
  let '(a3, e3) := rulePatch doorLeft a2 in
  let '(a4, e4) := ruleLulla now interval doorRight a3 in
  (a4, e1 ++ e2 ++ e3 ++ e4).

(** What one pass of the [forEach] body does to the object [a]. *)
Definition animStep (now : Z) (u : Q) (w : World) (a : Anim) : Anim * list AnimName :=
  let a0 := set_active (night w >=? Def.activeFrom (animDefs (name a))) a in
  if negb (active a0) then (a0, [])
  else if inOffice a0 then (a0, [])
  else
    let interval := interval_of (night w) a0 in
    let a1 := moveStep now u interval a0 in
    let a2 := watchStep now (monitorOpen w) (monitorSingle w) a1 in
    entryStep now interval (doorLeftClosed w) (doorRightClosed w) a2.

(** The body of the [forEach] for the object stored under key [k]. *)
Definition updateAnim (now : Z) (u : Q) (k : AnimName) (w : World) : World :=
  let '(a, calls) := animStep now u w (get k (anims w)) in
  fold_left (fun w nm => triggerEntry nm w) calls
            (set_anims (put k a (anims w)) w).

(** [updateAI(now)]; [us k] is the value [Math.random()] returns when the
    object under key [k] relocates. *)
Definition updateAI (now : Z) (us : AnimName -> Q) (w : World) : World :=
  fold_left (fun w k => updateAnim now (us k) k w) Object_keys w.

(** The part of [loop] that changes the state. *)
Definition loop (us : AnimName -> Q) (w : World) : World :=
  updateAI (clock w) us w.

(** ** Player input ([handleTap], while the game runs) *)

(** Where a tap lands: the tests [handleTap] makes on its coordinates. *)
Record Tap : Type := mkTap {
  inBar : bool;             (* [y > H * 0.80] *)
  thumb : option Z;         (* the [id] of the first thumbnail of [camPositions] hit, if any *)
  leftHalf : bool           (* [x < W * 0.5] *)
}.

(** [handleTap] with [inMenu] false and [started] true. *)
Definition handleTap (t : Tap) (w : World) : World :=
  if inBar t then
    let w1 := set_monitorOpen (negb (monitorOpen w)) w in
    if monitorOpen w1 then w1 else set_monitorSingle None w1
  else if monitorOpen w then set_monitorSingle (thumb t) w
  else if leftHalf t then set_doorLeftClosed (negb (doorLeftClosed w)) w
  else set_doorRightClosed (negb (doorRightClosed w)) w.

(** ** Runs of the game *)

(** One event of the browser: a menu click, the end of a preload, an hour
    tick, an animation frame, an expired timeout, a tap, or time passing.
    The part of the script that schedules frames before a game starts is not
    in the source at hand, so a frame is allowed in every state. *)
Inductive step : World -> World -> Prop :=
| step_menu w :
    step w (startNewGame w)
| step_preloaded w :
    (0 < preloading w)%nat ->
    step w (beginGamePlay_resume w)
| step_hour w u :
    (0 < tickers w)%nat -> (0 <= u)%Q -> (u < 1)%Q ->
    step w (hourTick u w)
| step_frame w us :
    (forall k, (0 <= us k)%Q /\ (us k < 1)%Q) ->
    step w (loop us w)
| step_timeout w pre due nm post :
    timeouts w = pre ++ (due, nm) :: post -> due <= clock w ->
    step w (entryExpired nm (set_timeouts (pre ++ post) w))
| step_tap w t :
    started w = true ->
    step w (handleTap t w)
| step_time w dt :
    0 <= dt ->
    step w (set_clock (clock w + dt) w).

Inductive reachable : World -> Prop :=
| reach_loaded stamps t0 : reachable (loaded stamps t0)
| reach_step w w' : reachable w -> step w w' -> reachable w'.

(** ** Image loading ([tryPathsForImage], [loadImageKey], [preloadAll]) *)

Module Assets.
Import String.
#[local] Open Scope string_scope.

(** [camKeyById], in the order [for ... in] visits its keys. *)
Definition camKeyById : list (Z * string) :=
  [(1, "cam1_salon_base"); (2, "cam2_baby_base"); (3, "cam3_mini_base");
   (4, "cam4_kitchen_base"); (5, "cam5_bath_base"); (6, "cam6_storage_base");
   (7, "office_base_closed")].

Definition OFFICE_KEY : string := "office_base_closed".
Definition OFFICE_OPEN_KEY : string := "office_open".

(** [Object.values(camKeyById)]. *)
Definition camKeys : list string := map snd camKeyById.

Definition extrasToLoad : list string :=
  ["door_left_sprite"; "door_right_sprite"; "scanlines"; "cassidy_static";
   "menu_crt"; "cursor_double"].

Definition animSpriteKeys : list string :=
  ["vale_idle"; "vale_walk"; "vale_watch"; "vale_jumpscare";
   "patch_idle"; "patch_walk"; "patch_watch"; "patch_jumpscare";
   "lulla_idle"; "lulla_walk"; "lulla_watch"; "lulla_jumpscare";
   "rust_idle"; "rust_walk"; "rust_watch"; "rust_jumpscare"].

(** [arr.includes(key)]. *)
Definition includes (arr : list string) (key : string) : bool :=
  existsb (String.eqb key) arr.

(** [key.startsWith(p)]. *)
Definition startsWith (key p : string) : bool := prefix p key.

(** The array [paths] that [loadImageKey] builds for [key]. *)
Definition imagePaths (key : string) : list string :=
  if includes camKeys key then
    ["assets/cams/" ++ key ++ ".jpg"; "assets/cams/" ++ key ++ ".png"]
  else if includes extrasToLoad key || startsWith key "menu" || startsWith key "cursor" then
    ["assets/" ++ key ++ ".png"; "assets/" ++ key ++ ".jpg"]
  else if includes animSpriteKeys key then
    ["assets/animatronics/" ++ key ++ ".png"; "assets/animatronics/" ++ key ++ ".jpg"]
  else
    ["assets/" ++ key ++ ".png"; "assets/" ++ key ++ ".jpg"].

(** [tryPathsForImage(paths)]: the first path whose image loads, [None]
    ([null]) when none does.  [loads p] tells whether the image at path [p]
    fires [onload] (rather than [onerror]); an image is named by its path. *)
Fixpoint tryPathsForImage (loads : string -> bool) (paths : list string) : option string :=
  match paths with
  | [] => None
  | p :: rest => if loads p then Some p else tryPathsForImage loads rest
  end.

(** [loadImageKey(key)]; the warning on the console is not modelled. *)
Definition loadImageKey (loads : string -> bool) (key : string) : option string :=
  tryPathsForImage loads (imagePaths key).

(** [assets.imgs]: an object from keys to images, keys in insertion order. *)
Definition Imgs : Type := list (string * string).

(** [imgs[key]]. *)
Fixpoint lookup (imgs : Imgs) (key : string) : option string :=
  match imgs with
  | [] => None
  | (k, v) :: rest => if String.eqb k key then Some v else lookup rest key
  end.

(** [imgs[key] = img]. *)
Fixpoint assign (imgs : Imgs) (key img : string) : Imgs :=
  match imgs with
  | [] => [(key, img)]
  | (k, v) :: rest =>
      if String.eqb k key then (k, img) :: rest else (k, v) :: assign rest key img
  end.

(** [const img = await loadImageKey(key); if(img) assets.imgs[key] = img;] *)
Definition loadInto (loads : string -> bool) (imgs : Imgs) (key : string) : Imgs :=
  match loadImageKey loads key with
  | Some img => assign imgs key img
  | None => imgs
  end.

(** The keys [preloadAll] loads, in order: the cameras, the open office,
    the extras, the sprites. *)
Definition preloadKeys : list string :=
  map snd camKeyById ++ [OFFICE_OPEN_KEY] ++ extrasToLoad ++ animSpriteKeys.

(** The image part of [preloadAll]. *)
Definition preloadImages (loads : string -> bool) (imgs : Imgs) : Imgs :=
  fold_left (loadInto loads) preloadKeys imgs.

End Assets.

(** * Notions used in the statements *)

(** The timeout a call of [triggerEntry] made in state [w] registers. *)
Definition timeoutOf (w : World) (nm : AnimName) : Z * AnimName :=
  (clock w + ENTRY_MS, nm).

(** The result of the [forEach] body for key [k], computed in the state in
    which [updateAI] is entered. *)
Definition outcome (now : Z) (us : AnimName -> Q) (w : World) (k : AnimName)
  : Anim * list AnimName :=
  animStep now (us k) w (get k (anims w)).

(** The calls of [triggerEntry] made by one [updateAI], in order. *)
Definition entries (now : Z) (us : AnimName -> Q) (w : World) : list AnimName :=
  snd (outcome now us w vale) ++ snd (outcome now us w patch) ++
  snd (outcome now us w lulla) ++ snd (outcome now us w rust).

(** Every object of [anims] carries its own key as [name]. *)
Definition named (w : World) : Prop := forall k, name (get k (anims w)) = k.

(** The condition under which the entry rule of the object [a] calls
    [triggerEntry], read off the four [if]s of the source. *)
Definition fires (now : Z) (interval : Q) (doorLeft doorRight : bool) (a : Anim) : bool :=
  match name a with
  | rust => (30000 <? now - lastSeen a) && negb (inOffice a)
  | vale => JS.same_cam (cam a) 3 && negb doorRight
  | patch => JS.same_cam (cam a) 6 && negb doorLeft
  | lulla => JS.same_cam (cam a) 3 && negb doorRight
             && JS.ltb (inject_Z (now - lastMove a)) (interval * 0.45)
  end.

(** Equality of keys is decidable. *)
Definition AnimName_eq_dec (x y : AnimName) : {x = y} + {x <> y}.
Proof. decide equality. Defined.

(** The number of 'ENTRY:' lines for agent [k]. *)
Definition entryCount (k : AnimName) (l : list AnimName) : nat :=
  count_occ AnimName_eq_dec l k.

(** The pending timeouts of agent [k]. *)
Definition pending (k : AnimName) (l : list (Z * AnimName)) : list (Z * AnimName) :=
  filter (fun t => AnimName_eqb (snd t) k) l.

(** [arr[Math.floor(Math.random()*arr.length)]]. *)
Definition draw (arr : list Z) (u : Q) : option Z :=
  JS.index arr (JS.floor (u * inject_Z (Z.of_nat (length arr)))).

(** The clock fields in the states of a run. *)
Definition clock_ok (w : World) : Prop :=
  0 <= hour w <= 7 /\ 1 <= night w <= 7 /\ 0 <= power w <= 100.

(** [patch] is outside the office, at one of its allowed locations. *)
Definition patch_ok (a : Anim) : Prop :=
  inOffice a = false /\
  exists c, cam a = Some c /\ In c (Def.allowed (animDefs patch)).

(** ... and no entry has been logged for it. *)
Definition patch_inv (w : World) : Prop :=
  patch_ok (get patch (anims w)) /\ entryCount patch (console w) = 0%nat.

(** The reset as the specification words it: the clock at night 1, hour 0,
    power 100, and every agent back at its starting location, with fresh
    timestamps, outside the office, with [active] decided by night 1. *)
Definition resets_everything (w : World) : Prop :=
  let w' := newGame w in
  night w' = 1 /\ hour w' = 0 /\ power w' = 100 /\
  forall k,
    cam (get k (anims w')) = Some (Def.start (animDefs k)) /\
    lastMove (get k (anims w')) = clock w /\
    lastSeen (get k (anims w')) = clock w /\
    inOffice (get k (anims w')) = false /\
    active (get k (anims w')) = (1 >=? Def.activeFrom (animDefs k)).

(** A short run: the script is loaded at time 0, a game is started, 51201 ms
    pass, and one frame is drawn with every [Math.random()] equal to 0.25.
    [lulla] relocates to camera 3 and enters through the open right door. *)
Definition run_start : World := newGame (loaded (fun _ => (0, 0)) 0).
Definition run_wait : World := set_clock (clock run_start + 51201) run_start.
Definition run_frame : World := loop (fun _ => 0.25%Q) run_wait.

(** The script loaded at time 0 and left alone for a minute. *)
Definition idle_minute : World := set_clock 60000 (loaded (fun _ => (0, 0)) 0).

(** The difficulty table and the interval as the specification words them. *)
Module Spec.

(** The table of the specification, night to multiplier. *)
Definition difficultyTable : list (Z * Q) :=
  [(1, 1.6%Q); (2, 1.25%Q); (3, 1.0%Q); (4, 0.95%Q); (5, 0.85%Q);
   (6, 0.6%Q); (7, 0.5%Q)].

(** [difficultyMultiplier(night)]: the table value, 1.0 outside it. *)
Definition difficultyMultiplier (n : Z) : Q :=
  match find (fun e => fst e =? n) difficultyTable with
  | Some e => snd e
  | None => 1.0%Q
  end.

(** [max(MIN_INTERVAL_MS, baseInterval * difficultyMultiplier(night))]. *)
Definition effectiveInterval (base n : Z) : Q :=
  Qmax 700 (inject_Z base * difficultyMultiplier n).

End Spec.

#[local] Set Warnings "-inexact-float".

(** An integer as a JavaScript number. *)
Definition binary64 (z : Z) : float := PrimFloat.of_uint63 (Uint63.of_Z z).

(** The literals of [NIGHT_SPEED] as the parser rounds them. *)
Definition NIGHT_SPEED_binary64 (n : Z) : option float :=
  match n with
  | 1 => Some 1.6%float
  | 2 => Some 1.25%float
  | 3 => Some 1.0%float
  | 4 => Some 0.95%float
  | 5 => Some 0.85%float
  | 6 => Some 0.6%float
  | 7 => Some 0.5%float
  | _ => None
  end.

(** [NIGHT_SPEED[night] || 1.0] on numbers. *)
Definition speed_binary64 (n : Z) : float :=
  match NIGHT_SPEED_binary64 n with
  | Some x => if PrimFloat.eqb x 0%float then 1.0%float else x
  | None => 1.0%float
  end.

(** [Math.max] on two numbers. *)
Definition max_binary64 (x y : float) : float := if PrimFloat.ltb x y then y else x.

(** [Math.max(700, a.baseInterval * (NIGHT_SPEED[night] || 1.0))] on numbers. *)
Definition interval_binary64 (n base : Z) : float :=
  max_binary64 700%float (PrimFloat.mul (binary64 base) (speed_binary64 n)).

(** The rational [q] is an integer and the number [x] is that integer. *)
Definition agree (q : Q) (x : float) : bool :=
  Qeq_bool q (inject_Z (Qfloor q)) && PrimFloat.eqb x (binary64 (Qfloor q)).

(** The nights of the table. *)
Definition nights : list Z := [1; 2; 3; 4; 5; 6; 7].

(** Every [Math.random()] returns 0.25. *)
Definition quarter : AnimName -> Q := fun _ => 0.25%Q.

(** Night 5, 31000 ms after the load; nothing has moved or been seen since. *)
Definition late_night : World := set_clock 31000 (set_night 5 run_start).

(** [run_wait] with the monitor open on camera 3. *)
Definition watching : World :=
  set_monitorSingle (Some 3) (set_monitorOpen true run_wait).

(** ** Notions used in the further properties *)

(** Every agent stands at one of the locations its definition allows. *)
Definition located (w : World) : Prop :=
  forall k, exists c, cam (get k (anims w)) = Some c /\ In c (Def.allowed (animDefs k)).

(** An agent in the office has exactly one pending timeout, due within the
    next 2200 ms; an agent outside the office has none. *)
Definition timers_ok (w : World) : Prop :=
  forall k,
    (inOffice (get k (anims w)) = true ->
     exists d, pending k (timeouts w) = [(d, k)] /\ d <= clock w + ENTRY_MS) /\
    (inOffice (get k (anims w)) = false -> pending k (timeouts w) = []).

(** No timestamp of an agent lies in the future. *)
Definition stamped (w : World) : Prop :=
  forall k, lastMove (get k (anims w)) <= clock w /\ lastSeen (get k (anims w)) <= clock w.

(** A run from one state to another: any number of events. *)
Inductive run : World -> World -> Prop :=
| run_nil w : run w w
| run_step w w' w'' : run w w' -> step w' w'' -> run w w''.

(** ** Which agents the views draw ([drawMonitorGrid], [drawSingleCam], [drawOfficeView]) *)

(** [Object.values(anims)]. *)
Definition Object_values (t : Anims) : list Anim :=
  [slot_vale t; slot_patch t; slot_lulla t; slot_rust t].

(** [a.active && !a.inOffice && a.cam === id]: the test of both camera views. *)
Definition onCamera (id : Z) (a : Anim) : bool :=
  active a && negb (inOffice a) && JS.same_cam (cam a) id.

(** The names of the agents drawn on camera [id], in drawing order. *)
Definition shownAt (id : Z) (w : World) : list AnimName :=
  map name (filter (onCamera id) (Object_values (anims w))).

(** The names of the agents [drawOfficeView] draws ([if(a.inOffice)]). *)
Definition shownInOffice (w : World) : list AnimName :=
  map name (filter inOffice (Object_values (anims w))).

(** ** The Cassidy overlay ([updateCassidy]) *)

(** [cassidyGlitch]; times are rationals, as [Math.random()] is. *)
Record Glitch : Type := mkGlitch {
  g_next : Q;
  g_active : bool;
  g_end : Q
}.

(** The value of [cassidyGlitch] when the script is loaded. *)
Definition glitch0 : Glitch := mkGlitch 0 false 0.

(** [updateCassidy(now)] with [cassidyActive] as given; [u1] and [u2] are
    the two values of [Math.random()], in the order of the calls. *)
Definition updateCassidy (now : Z) (u1 u2 : Q) (cassidyActive : bool) (g : Glitch) : Glitch :=
  if negb cassidyActive then g
  else
    let g1 :=
      if JS.ltb (g_next g) (inject_Z now) && negb (g_active g)
      then mkGlitch (inject_Z now + (8000 + u2 * 15000)) true
                    (inject_Z now + (1000 + u1 * 1400))
      else g in
    if g_active g1 && JS.ltb (g_end g1) (inject_Z now)
    then mkGlitch (g_next g1) false (g_end g1)
    else g1.

(** [run_frame] 2200 ms later, when the timeout of [lulla] is due. *)
Definition run_due : World := set_clock 53401 run_frame.

(** [run_start] after forty hour ticks that drain no power: night 6. *)
Definition run_night6 : World := Nat.iter 40 (hourTick 0) run_start.

(** Every [Math.random()] returns 0.125: every draw picks index 0. *)
Definition eighth : AnimName -> Q := fun _ => 0.125%Q.

(** Every [Math.random()] returns 0.375. *)
Definition three_eighths : AnimName -> Q := fun _ => 0.375%Q.

(** [run_start] after thirty-two hour ticks that drain no power: night 5. *)
Definition run_night5 : World := Nat.iter 32 (hourTick 0) run_start.

(** Night 5, 2880000 ms after the load: a frame in which [rust] wakes up and
    relocates, every draw being 0.125; 31000 ms later a tap on the bar opens
    the monitor on the grid. *)
Definition run_rust_awake : World :=
  loop eighth (set_clock (clock run_night5 + 2880000) run_night5).
Definition run_rust_unseen : World :=
  set_clock (clock run_rust_awake + 31000) run_rust_awake.
Definition run_rust_watched : World :=
  handleTap (mkTap true None true) run_rust_unseen.

(** ** A new game before any frame *)

(** The states the script can be in while no animation frame has run since
    it was loaded: every event of [step] but a frame. *)
Inductive frameless (stamps : AnimName -> Z * Z) : World -> Prop :=
| frameless_loaded t0 :
    frameless stamps (loaded stamps t0)
| frameless_menu w :
    frameless stamps w ->
    frameless stamps (startNewGame w)
| frameless_preloaded w :
    frameless stamps w -> (0 < preloading w)%nat ->
    frameless stamps (beginGamePlay_resume w)
| frameless_hour w u :
    frameless stamps w -> (0 < tickers w)%nat -> (0 <= u)%Q -> (u < 1)%Q ->
    frameless stamps (hourTick u w)
| frameless_timeout w pre due nm post :
    frameless stamps w ->
    timeouts w = pre ++ (due, nm) :: post -> due <= clock w ->
    frameless stamps (entryExpired nm (set_timeouts (pre ++ post) w))
| frameless_tap w t :
    frameless stamps w -> started w = true ->
    frameless stamps (handleTap t w)
| frameless_time w dt :
    frameless stamps w -> 0 <= dt ->
    frameless stamps (set_clock (clock w + dt) w).

(** ** The relocation draw in binary64 *)

(** The state [w] with the agent under key [k] standing at [c]. *)
Definition placed (k : AnimName) (c : option Z) (w : World) : World :=
  set_anims (put k (set_cam c (get k (anims w))) (anims w)) w.

(** [floor(log2 x)] for a positive rational [x]. *)
Definition exponent (x : Q) : Z :=
  let d := Z.log2 (Qnum x) - Z.log2 (Zpos (Qden x)) in
  if JS.ltb x (2 ^ d)%Q then d - 1 else d.

(** The spacing of the binary64 numbers around [x]: 53 significant bits, the
    exponent not below -1022. *)
Definition ulp (x : Q) : Q := (2 ^ (Z.max (exponent x) (-1022) - 52))%Q.

(** The integer nearest to [m]; of two equally near ones, the even one. *)
Definition nearest_even (m : Q) : Z :=
  let f := Qfloor m in
  match (m - inject_Z f ?= 1 # 2)%Q with
  | Lt => f
  | Gt => f + 1
  | Eq => if Z.even f then f else f + 1
  end.

(** A real [0 <= x < 2^1024] rounded to binary64, to nearest, ties to even.
    The value of [x * y] on numbers is the exact product so rounded. *)
Definition round64 (x : Q) : Q := (inject_Z (nearest_even (x / ulp x)) * ulp x)%Q.

(** [arr[Math.floor(Math.random()*arr.length)]] with the product rounded as
    the code rounds it. *)
Definition draw_binary64 (arr : list Z) (u : Q) : option Z :=
  JS.index arr (JS.floor (round64 (u * inject_Z (Z.of_nat (length arr))))).

(** How far from the ends of the interval [[i/n, (i+1)/n)] a draw has to be
    for the rounding of the product not to matter: 2^-52. *)
Definition rounding_margin : Q := 1 # 2 ^ 52.

(** Four draws, one in each quarter of [[0,1)]. *)
Definition eighths : list Q := [0.125%Q; 0.375%Q; 0.625%Q; 0.875%Q].

(** The value of a number that is finite and not negative. *)
Definition value64 (x : float) : option Q :=
  match FloatOps.Prim2SF x with
  | SpecFloat.S754_zero _ => Some 0%Q
  | SpecFloat.S754_finite false m e => Some (inject_Z (Zpos m) * 2 ^ e)%Q
  | _ => None
  end.

(** The number [k / 2^53], for [0 <= k < 2^53]. *)
Definition dyadic53 (k : Z) : float := PrimFloat.div (binary64 k) (binary64 (2 ^ 53)).

(** The number [dyadic53 k] is [k / 2^53], and its product with [n] on
    numbers is [round64] of the exact product. *)
Definition product_agrees (k n : Z) : bool :=
  match value64 (dyadic53 k), value64 (PrimFloat.mul (dyadic53 k) (binary64 n)) with
  | Some u, Some p =>
      Qeq_bool u (k # 2 ^ 53) && Qeq_bool p (round64 ((k # 2 ^ 53) * inject_Z n))
  | _, _ => false
  end.

(** Numerators of draws [k / 2^53]: small and large ones, and the
    neighbours of 1/4, 1/3, 1/2, 2/3, 3/4 and 1. *)
Definition sample_draws : list Z :=
  [0; 1; 2; 3; 5; 1000; 2 ^ 20 + 1; 123456789012345;
   2251799813685247; 2251799813685248; 2251799813685249;
   3002399751580330; 3002399751580331; 3002399751580332;
   4503599627370495; 4503599627370496; 4503599627370497;
   6004799503160660; 6004799503160661; 6004799503160662;
   6755399441055743; 6755399441055744; 6755399441055745;
   7777777777777777; 9007199254740989; 9007199254740990; 9007199254740991].

(** The lengths of the [allowed] arrays. *)
Definition lengths : list Z := map (fun k => Z.of_nat (length (Def.allowed (animDefs k)))) Object_keys.

(** * Properties *)

(** ** Numbers *)

Lemma ltb_lt (x y : Q) : JS.ltb x y = true <-> (x < y)%Q.
Proof.
  unfold JS.ltb. rewrite negb_true_iff, <- not_true_iff_false, Qle_bool_iff.
  split; [apply Qnot_le_lt | apply Qlt_not_le].
Qed.

Lemma ltb_ge (x y : Q) : JS.ltb x y = false <-> (y <= x)%Q.
Proof.
  unfold JS.ltb. rewrite negb_false_iff. apply Qle_bool_iff.
Qed.

(** [Math.floor(u * n)] for [0 <= u < 1] and a positive integer [n] is an
    index below [n]. *)
Lemma floor_scaled_range (u : Q) (n : Z) :
  (0 <= u)%Q -> (u < 1)%Q -> 0 < n ->
  0 <= JS.floor (u * inject_Z n) < n.
Proof.
  intros H0 H1 Hn. unfold JS.floor.
  assert (Hq : (0 < inject_Z n)%Q) by (change (inject_Z 0 < inject_Z n)%Q; rewrite <- Zlt_Qlt; exact Hn).
  split.
  - change 0 with (Qfloor 0). apply Qfloor_resp_le. nra.
  - apply Z.lt_nge. intro Hge.
    assert (Hle : (inject_Z n <= u * inject_Z n)%Q).
    { apply Qle_trans with (inject_Z (Qfloor (u * inject_Z n))).
      - rewrite <- Zle_Qle. exact Hge.
      - apply Qfloor_le. }
    nra.
Qed.

(** ** What [updateAI] does to the state *)

Lemma triggerEntry_all (calls : list AnimName) (w : World) :
  fold_left (fun w nm => triggerEntry nm w) calls w =
  set_timeouts (timeouts w ++ map (timeoutOf w) calls)
    (set_console (console w ++ calls) w).
Proof.
  revert w. induction calls as [|nm calls IH]; intros w.
  - destruct w; cbn. rewrite !app_nil_r. reflexivity.
  - cbn [fold_left]. rewrite IH. destruct w; cbn.
    unfold set_timeouts, set_console, timeoutOf; cbn.
    rewrite <- !app_assoc. reflexivity.
Qed.

Lemma updateAnim_eq now u k w :
  updateAnim now u k w =
  let r := animStep now u w (get k (anims w)) in
  set_timeouts (timeouts w ++ map (timeoutOf w) (snd r))
    (set_console (console w ++ snd r)
       (set_anims (put k (fst r) (anims w)) w)).
Proof.
  unfold updateAnim. destruct (animStep now u w (get k (anims w))) as [a calls].
  rewrite triggerEntry_all. destruct w; reflexivity.
Qed.

(** [animStep] reads the night, the monitor and the doors, nothing else. *)
Lemma animStep_env now u w w' a :
  night w' = night w -> monitorOpen w' = monitorOpen w ->
  monitorSingle w' = monitorSingle w ->
  doorLeftClosed w' = doorLeftClosed w -> doorRightClosed w' = doorRightClosed w ->
  animStep now u w' a = animStep now u w a.
Proof.
  intros E1 E2 E3 E4 E5. unfold animStep. rewrite E1, E2, E3, E4, E5. reflexivity.
Qed.

Theorem updateAI_eq now us w :
  updateAI now us w =
  mkWorld (started w) (monitorOpen w) (monitorSingle w) (night w) (hour w) (power w)
          (doorLeftClosed w) (doorRightClosed w)
          (mkAnims (fst (outcome now us w vale)) (fst (outcome now us w patch))
                   (fst (outcome now us w lulla)) (fst (outcome now us w rust)))
          (clock w) (console w ++ entries now us w)
          (timeouts w ++ map (timeoutOf w) (entries now us w))
          (tickers w) (preloading w).
Proof.
  unfold updateAI, Object_keys, entries, outcome. cbn [fold_left].
  rewrite !updateAnim_eq. cbv zeta.
  destruct w as [st mo ms n h p dl dr [av ap al ar] c con tos tk pl].
  cbn [anims get put set_anims set_console set_timeouts started monitorOpen
       monitorSingle night hour power doorLeftClosed doorRightClosed clock
       console timeouts tickers preloading slot_vale slot_patch slot_lulla
       slot_rust].
  set (w0 := mkWorld st mo ms n h p dl dr (mkAnims av ap al ar) c con tos tk pl).
  repeat match goal with
  | |- context [animStep now ?u ?w' ?a] =>
      lazymatch w' with
      | w0 => fail
      | _ => rewrite (@animStep_env now u w0 w' a) by reflexivity
      end
  end.
  unfold timeoutOf; cbn [clock].
  rewrite !map_app, <- !app_assoc. reflexivity.
Qed.

(** ** The three cases of the [forEach] body *)

Lemma entryStep_eq now interval dl dr a :
  entryStep now interval dl dr a =
  if fires now interval dl dr a then (set_inOffice true a, [name a]) else (a, []).
Proof.
  destruct a as [nm c lm bi io ac ls].
  unfold entryStep, fires, ruleRust, ruleVale, rulePatch, ruleLulla.
  destruct nm; cbn [name cam inOffice lastSeen lastMove AnimName_eqb andb];
    repeat match goal with
    | |- context [if ?b then _ else _] => destruct b eqn:?; cbn
    end; try reflexivity; try discriminate.
Qed.

Section Body.
Variables (now : Z) (u : Q) (w : World) (a : Anim).

Let interval := interval_of (night w) a.

Lemma animStep_dormant :
  night w < Def.activeFrom (animDefs (name a)) ->
  animStep now u w a = (set_active false a, []).
Proof.
  intros H. unfold animStep.
  replace (night w >=? Def.activeFrom (animDefs (name a))) with false
    by (symmetry; rewrite Z.geb_leb; apply Z.leb_gt; exact H).
  reflexivity.
Qed.

Lemma animStep_breached :
  Def.activeFrom (animDefs (name a)) <= night w -> inOffice a = true ->
  animStep now u w a = (set_active true a, []).
Proof.
  intros H Hin. unfold animStep.
  replace (night w >=? Def.activeFrom (animDefs (name a))) with true
    by (symmetry; rewrite Z.geb_leb; apply Z.leb_le; exact H).
  cbn. rewrite Hin. reflexivity.
Qed.

Lemma animStep_roaming :
  Def.activeFrom (animDefs (name a)) <= night w -> inOffice a = false ->
  animStep now u w a =
  entryStep now interval (doorLeftClosed w) (doorRightClosed w)
    (watchStep now (monitorOpen w) (monitorSingle w)
       (moveStep now u interval (set_active true a))).
Proof.
  intros H Hin. unfold animStep.
  replace (night w >=? Def.activeFrom (animDefs (name a))) with true
    by (symmetry; rewrite Z.geb_leb; apply Z.leb_le; exact H).
  cbn. rewrite Hin. reflexivity.
Qed.

End Body.

(** Fields the three blocks leave alone. *)
Lemma moveStep_fields now u i a :
  name (moveStep now u i a) = name a /\
  inOffice (moveStep now u i a) = inOffice a /\
  active (moveStep now u i a) = active a /\
  baseInterval (moveStep now u i a) = baseInterval a.
Proof. unfold moveStep. destruct (JS.ltb _ _); cbn; auto. Qed.

Lemma watchStep_fields now mo ms a :
  name (watchStep now mo ms a) = name a /\
  cam (watchStep now mo ms a) = cam a /\
  lastMove (watchStep now mo ms a) = lastMove a /\
  inOffice (watchStep now mo ms a) = inOffice a /\
  active (watchStep now mo ms a) = active a /\
  baseInterval (watchStep now mo ms a) = baseInterval a.
Proof.
  unfold watchStep. destruct mo; [destruct ms as [m|]|]; cbn; auto 10.
  destruct (JS.same_cam _ _); cbn; auto 10.
Qed.

Lemma entryStep_fields now i dl dr a :
  name (fst (entryStep now i dl dr a)) = name a /\
  cam (fst (entryStep now i dl dr a)) = cam a /\
  lastMove (fst (entryStep now i dl dr a)) = lastMove a /\
  lastSeen (fst (entryStep now i dl dr a)) = lastSeen a /\
  active (fst (entryStep now i dl dr a)) = active a /\
  baseInterval (fst (entryStep now i dl dr a)) = baseInterval a.
Proof. rewrite entryStep_eq. destruct (fires _ _ _ _ _); cbn; auto 10. Qed.

(** [name] is never assigned. *)
Lemma animStep_name now u w a : name (fst (animStep now u w a)) = name a.
Proof.
  unfold animStep. cbn.
  destruct (night w >=? _); cbn; [|reflexivity].
  destruct (inOffice a); cbn; [reflexivity|].
  rewrite (proj1 (entryStep_fields _ _ _ _ _)), (proj1 (watchStep_fields _ _ _ _)),
    (proj1 (moveStep_fields _ _ _ _)). reflexivity.
Qed.

Lemma animStep_baseInterval now u w a :
  baseInterval (fst (animStep now u w a)) = baseInterval a.
Proof.
  unfold animStep. cbn.
  destruct (night w >=? _); cbn; [|reflexivity].
  destruct (inOffice a); cbn; [reflexivity|].
  destruct (entryStep_fields now (interval_of (night w) (set_active true a))
              (doorLeftClosed w) (doorRightClosed w)
              (watchStep now (monitorOpen w) (monitorSingle w)
                 (moveStep now u (interval_of (night w) (set_active true a))
                    (set_active true a)))) as (_ & _ & _ & _ & _ & ->).
  destruct (watchStep_fields now (monitorOpen w) (monitorSingle w)
              (moveStep now u (interval_of (night w) (set_active true a))
                 (set_active true a))) as (_ & _ & _ & _ & _ & ->).
  destruct (moveStep_fields now u (interval_of (night w) (set_active true a))
              (set_active true a)) as (_ & _ & _ & ->).
  reflexivity.
Qed.

(** The calls of [triggerEntry] made for an object name that object. *)
Lemma animStep_calls now u w a :
  snd (animStep now u w a) = [] \/ snd (animStep now u w a) = [name a].
Proof.
  unfold animStep. cbn.
  destruct (night w >=? _); cbn; [|auto].
  destruct (inOffice a); cbn; [auto|].
  rewrite entryStep_eq. destruct (fires _ _ _ _ _); cbn; [right|auto].
  rewrite (proj1 (watchStep_fields _ _ _ _)), (proj1 (moveStep_fields _ _ _ _)).
  reflexivity.
Qed.

(** ** Reading one agent off [updateAI] *)

Lemma AnimName_eqb_eq (x y : AnimName) : AnimName_eqb x y = true <-> x = y.
Proof. destruct x, y; cbn; split; intros H; try reflexivity; discriminate. Qed.

Lemma updateAI_get now us w k :
  get k (anims (updateAI now us w)) = fst (outcome now us w k).
Proof. rewrite updateAI_eq. destruct k; reflexivity. Qed.

Lemma updateAI_console now us w :
  console (updateAI now us w) = console w ++ entries now us w.
Proof. rewrite updateAI_eq. reflexivity. Qed.

Lemma updateAI_timeouts now us w :
  timeouts (updateAI now us w) = timeouts w ++ map (timeoutOf w) (entries now us w).
Proof. rewrite updateAI_eq. reflexivity. Qed.

Lemma outcome_calls now us w k :
  named w ->
  snd (outcome now us w k) = [] \/ snd (outcome now us w k) = [k].
Proof.
  intros Hn. unfold outcome.
  destruct (animStep_calls now (us k) w (get k (anims w))) as [E|E]; rewrite E.
  - left; reflexivity.
  - right. rewrite Hn. reflexivity.
Qed.

Lemma entries_count now us w k :
  named w ->
  entryCount k (entries now us w) = length (snd (outcome now us w k)).
Proof.
  intros Hn. unfold entries, entryCount.
  destruct (outcome_calls now us vale Hn) as [Ev|Ev],
           (outcome_calls now us patch Hn) as [Ep|Ep],
           (outcome_calls now us lulla Hn) as [El|El],
           (outcome_calls now us rust Hn) as [Er|Er];
    destruct k; rewrite ?Ev, ?Ep, ?El, ?Er; reflexivity.
Qed.

Lemma entries_pending now us w k :
  named w ->
  pending k (map (timeoutOf w) (entries now us w)) =
  map (timeoutOf w) (snd (outcome now us w k)).
Proof.
  intros Hn. unfold entries, pending.
  destruct (outcome_calls now us vale Hn) as [Ev|Ev],
           (outcome_calls now us patch Hn) as [Ep|Ep],
           (outcome_calls now us lulla Hn) as [El|El],
           (outcome_calls now us rust Hn) as [Er|Er];
    destruct k; rewrite ?Ev, ?Ep, ?El, ?Er; reflexivity.
Qed.

Lemma entries_In now us w k :
  named w ->
  In k (entries now us w) <-> snd (outcome now us w k) = [k].
Proof.
  intros Hn. unfold entries.
  destruct (outcome_calls now us vale Hn) as [Ev|Ev],
           (outcome_calls now us patch Hn) as [Ep|Ep],
           (outcome_calls now us lulla Hn) as [El|El],
           (outcome_calls now us rust Hn) as [Er|Er];
    destruct k; rewrite ?Ev, ?Ep, ?El, ?Er; cbn; split; intros H;
    try reflexivity; try discriminate; intuition (try discriminate; auto).
Qed.

(** An active agent outside the office: [updateAI] moves it, looks at the
    monitor, and evaluates its entry rule. *)
Lemma outcome_roaming now us w k :
  named w ->
  Def.activeFrom (animDefs k) <= night w ->
  inOffice (get k (anims w)) = false ->
  outcome now us w k =
  entryStep now (interval_of (night w) (get k (anims w)))
    (doorLeftClosed w) (doorRightClosed w)
    (watchStep now (monitorOpen w) (monitorSingle w)
       (moveStep now (us k) (interval_of (night w) (get k (anims w)))
          (set_active true (get k (anims w))))).
Proof.
  intros Hn Hact Hin. unfold outcome.
  apply animStep_roaming; [rewrite Hn; exact Hact | exact Hin].
Qed.

(** ** Relocation *)

Lemma moveStep_elapsed now u i a :
  (i < inject_Z (now - lastMove a))%Q ->
  moveStep now u i a =
  set_lastSeen now (set_lastMove now (set_cam (draw (Def.allowed (animDefs (name a))) u) a)).
Proof.
  intros H. unfold moveStep. rewrite (proj2 (ltb_lt _ _) H). reflexivity.
Qed.

Lemma moveStep_waiting now u i a :
  ~ (i < inject_Z (now - lastMove a))%Q ->
  moveStep now u i a = a.
Proof.
  intros H. unfold moveStep.
  destruct (JS.ltb i (inject_Z (now - lastMove a))) eqn:E; [|reflexivity].
  apply ltb_lt in E. contradiction.
Qed.

Lemma index_Some {A} (arr : list A) (i : Z) :
  0 <= i < Z.of_nat (length arr) ->
  exists c, JS.index arr i = Some c /\ In c arr.
Proof.
  intros [Hlo Hhi]. unfold JS.index.
  destruct (i <? 0) eqn:E; [apply Z.ltb_lt in E; lia|].
  destruct (nth_error arr (Z.to_nat i)) as [c|] eqn:En.
  - exists c. split; [reflexivity | eapply nth_error_In; exact En].
  - apply nth_error_None in En. lia.
Qed.

(** A draw from a non-empty array is one of its elements. *)
Lemma draw_member (arr : list Z) (u : Q) :
  arr <> [] -> (0 <= u)%Q -> (u < 1)%Q ->
  exists c, draw arr u = Some c /\ In c arr.
Proof.
  intros Hne H0 H1. unfold draw. apply index_Some.
  apply floor_scaled_range; try assumption.
  destruct arr; [contradiction | cbn [length]; lia].
Qed.

Lemma allowed_nonempty k : Def.allowed (animDefs k) <> [].
Proof. destruct k; discriminate. Qed.

(** *** The product in binary64 *)

Lemma nearest_even_close (m : Q) :
  (m - (1 # 2) <= inject_Z (nearest_even m))%Q /\
  (inject_Z (nearest_even m) <= m + (1 # 2))%Q.
Proof.
  unfold nearest_even.
  pose proof (Qfloor_le m) as Hlo. pose proof (Qlt_floor m) as Hhi.
  rewrite inject_Z_plus in Hhi.
  set (f := Qfloor m) in *.
  assert (Hup : (inject_Z (f + 1) == inject_Z f + 1)%Q)
    by (rewrite inject_Z_plus; reflexivity).
  set (g := inject_Z (f + 1)) in *. set (h := inject_Z f) in *.
  change (inject_Z 1) with 1%Q in Hhi.
  destruct (m - h ?= 1 # 2)%Q eqn:E.
  - apply Qeq_alt in E. destruct (Z.even f); fold h; fold g; split; lra.
  - apply Qlt_alt in E. fold h. split; lra.
  - apply Qgt_alt in E. fold g. split; lra.
Qed.

Lemma exponent_lt (x : Q) (j : Z) :
  0 <= j -> (x < inject_Z (2 ^ j))%Q -> exponent x <= j - 1.
Proof.
  intros Hj Hx. unfold exponent.
  set (d := Z.log2 (Qnum x) - Z.log2 (Z.pos (Qden x))).
  assert (Hd : d <= j).
  { unfold d. destruct x as [p q]. cbn [Qnum Qden].
    unfold Qlt in Hx. cbn [Qnum Qden inject_Z] in Hx.
    destruct (Z.le_gt_cases p 0) as [Hp|Hp].
    - rewrite (Z.log2_nonpos p Hp). pose proof (Z.log2_nonneg (Z.pos q)). lia.
    - assert (Hle : Z.log2 p <= Z.log2 (Z.pos q * 2 ^ j)) by (apply Z.log2_le_mono; lia).
      rewrite Z.log2_mul_pow2 in Hle by lia. lia. }
  destruct (JS.ltb x (2 ^ d)%Q) eqn:E; [lia|].
  destruct (Z.eq_dec d j) as [Ej|]; [|lia].
  rewrite Ej in E. apply not_true_iff_false in E. exfalso. apply E.
  apply ltb_lt. rewrite (@Zpower_Qpower 2 j Hj) in Hx. exact Hx.
Qed.

Lemma ulp_pos (x : Q) : (0 < ulp x)%Q.
Proof. unfold ulp. apply Qpower_0_lt. reflexivity. Qed.

Lemma ulp_le (x : Q) (j : Z) :
  0 <= j -> (x < inject_Z (2 ^ j))%Q -> (ulp x <= 2 ^ (j - 53))%Q.
Proof.
  intros Hj Hx. unfold ulp.
  apply Qpower_le_compat_l; [|discriminate].
  pose proof (@exponent_lt x j Hj Hx). lia.
Qed.

(** Rounding to binary64 moves a real below [2^j] by [2^(j-54)] at most. *)
Lemma round64_error (x : Q) (j : Z) :
  0 <= j -> (x < inject_Z (2 ^ j))%Q ->
  (x - 2 ^ (j - 53) * (1 # 2) <= round64 x)%Q /\
  (round64 x <= x + 2 ^ (j - 53) * (1 # 2))%Q.
Proof.
  intros Hj Hx. unfold round64.
  pose proof (ulp_pos x) as Hp. pose proof (@ulp_le x j Hj Hx) as Hle.
  set (e := ulp x) in *. set (b := (2 ^ (j - 53))%Q) in *.
  destruct (nearest_even_close (x / e)) as [Hlo Hhi].
  set (r := inject_Z (nearest_even (x / e))) in *.
  assert (Hxe : (x == x / e * e)%Q) by (field; lra).
  set (m := (x / e)%Q) in *.
  split; nra.
Qed.

(** Below 4, that is 2^-52 at most. *)
Lemma round64_close (x : Q) :
  (x < 4)%Q ->
  (x - rounding_margin <= round64 x)%Q /\ (round64 x <= x + rounding_margin)%Q.
Proof.
  intros H4. exact (@round64_error x 2 ltac:(lia) H4).
Qed.

Lemma round64_nonneg (x : Q) : (0 <= x)%Q -> (0 <= round64 x)%Q.
Proof.
  intros Hx. unfold round64. pose proof (ulp_pos x) as Hp.
  set (e := ulp x) in *.
  destruct (nearest_even_close (x / e)) as [Hlo _].
  assert (Hm : (0 <= x / e)%Q).
  { apply Qle_shift_div_l; [exact Hp | lra]. }
  assert (Hz : -1 < nearest_even (x / e)).
  { rewrite Zlt_Qlt. change (inject_Z (-1)) with (-1)%Q. lra. }
  apply Qmult_le_0_compat; [|lra].
  change (inject_Z 0 <= inject_Z (nearest_even (x / e)))%Q. rewrite <- Zle_Qle. lia.
Qed.

Lemma floor_between (y : Q) (i : Z) :
  (inject_Z i <= y)%Q -> (y < inject_Z (i + 1))%Q -> JS.floor y = i.
Proof.
  intros Hy1 Hy2. unfold JS.floor.
  assert (A : i <= Qfloor y) by (rewrite <- (Qfloor_Z i); apply Qfloor_resp_le; exact Hy1).
  assert (B : Qfloor y < i + 1)
    by (rewrite Zlt_Qlt; eapply Qle_lt_trans; [apply Qfloor_le | exact Hy2]).
  lia.
Qed.

(** The largest number below 1 is [1 - 2^-53]: for every draw the code can
    make, the rounded product is an index of the array. *)
Lemma round64_below (u : Q) (n : Z) :
  n = 1 \/ n = 3 \/ n = 4 ->
  (0 <= u)%Q -> (u <= 1 - (1 # 2 ^ 53))%Q ->
  0 <= JS.floor (round64 (u * inject_Z n)) < n.
Proof.
  intros Hn H0 H1.
  assert (P53 : (0 < 1 # 2 ^ 53)%Q) by reflexivity.
  assert (P52 : ((1 # 2 ^ 52) == 2 * (1 # 2 ^ 53))%Q) by reflexivity.
  assert (P54 : ((1 # 2 ^ 53) == 2 * (1 # 2 ^ 54))%Q) by reflexivity.
  assert (Hlo : 0 <= JS.floor (round64 (u * inject_Z n))).
  { unfold JS.floor. change 0 with (Qfloor 0). apply Qfloor_resp_le.
    apply round64_nonneg. apply Qmult_le_0_compat; [exact H0|].
    destruct Hn as [E | [E | E]]; rewrite E; discriminate. }
  split; [exact Hlo|].
  assert (Hup : (round64 (u * inject_Z n) < inject_Z n)%Q).
  { destruct Hn as [E | [E | E]]; rewrite E.
    - assert (Hx : (u * inject_Z 1 < inject_Z (2 ^ 0))%Q).
      { change (inject_Z (2 ^ 0)) with 1%Q. change (inject_Z 1) with 1%Q. lra. }
      destruct (@round64_error (u * inject_Z 1) 0 ltac:(lia) Hx) as [_ H].
      change (2 ^ (0 - 53) * (1 # 2))%Q with (1 # 2 ^ 54)%Q in H.
      change (inject_Z 1) with 1%Q in *. lra.
    - assert (Hx : (u * inject_Z 3 < inject_Z (2 ^ 2))%Q).
      { change (inject_Z (2 ^ 2)) with 4%Q. change (inject_Z 3) with 3%Q. lra. }
      destruct (@round64_error (u * inject_Z 3) 2 ltac:(lia) Hx) as [_ H].
      change (2 ^ (2 - 53) * (1 # 2))%Q with (1 # 2 ^ 52)%Q in H.
      change (inject_Z 3) with 3%Q in *. lra.
    - assert (Hx : (u * inject_Z 4 < inject_Z (2 ^ 2))%Q).
      { change (inject_Z (2 ^ 2)) with 4%Q. change (inject_Z 4) with 4%Q. lra. }
      destruct (@round64_error (u * inject_Z 4) 2 ltac:(lia) Hx) as [_ H].
      change (2 ^ (2 - 53) * (1 # 2))%Q with (1 # 2 ^ 52)%Q in H.
      change (inject_Z 4) with 4%Q in *. lra. }
  unfold JS.floor. rewrite Zlt_Qlt.
  eapply Qle_lt_trans; [apply Qfloor_le | exact Hup].
Qed.

(** [round64] is the rounding of the product on numbers: checked on the
    sample draws, for every length of the code's arrays. *)
Lemma round64_is_binary64 :
  forallb (fun k => forallb (product_agrees k) lengths) sample_draws = true.
Proof. vm_compute. reflexivity. Qed.

(** At the largest number below 2/3 the exact product is below 2 and the
    rounded one is 2: the code picks index 2 of [vale]'s array, where the
    exact product gives index 1. *)
Example draw_at_boundary :
  let k := 6004799503160661 in
  let u := k # 2 ^ 53 in
  product_agrees k 3 = true /\
  (u * 3 < 2)%Q /\ (round64 (u * 3) == 2)%Q /\
  draw_binary64 (Def.allowed (animDefs vale)) u = Some 5 /\
  draw (Def.allowed (animDefs vale)) u = Some 3.
Proof. vm_compute. repeat split; reflexivity. Qed.

(** A draw that keeps the margin from both ends of the [i]-th interval picks
    index [i], whether the product is rounded or not. *)
Lemma draw_inside (arr : list Z) (u : Q) (i : Z) :
  Z.of_nat (length arr) <= 4 -> 0 <= i < Z.of_nat (length arr) ->
  (inject_Z i / inject_Z (Z.of_nat (length arr)) + rounding_margin <= u)%Q ->
  (u < inject_Z (i + 1) / inject_Z (Z.of_nat (length arr)) - rounding_margin)%Q ->
  draw arr u = nth_error arr (Z.to_nat i) /\
  draw_binary64 arr u = nth_error arr (Z.to_nat i).
Proof.
  set (n := Z.of_nat (length arr)). intros Hn4 Hi Hlo Hhi.
  assert (Hn : 0 < n) by lia.
  assert (Hq1 : (1 <= inject_Z n)%Q)
    by (change (inject_Z 1 <= inject_Z n)%Q; rewrite <- Zle_Qle; lia).
  assert (Hq4 : (inject_Z n <= 4)%Q)
    by (change (inject_Z n <= inject_Z 4)%Q; rewrite <- Zle_Qle; lia).
  assert (Hin : (inject_Z (i + 1) <= inject_Z n)%Q) by (rewrite <- Zle_Qle; lia).
  assert (Hi1 : (inject_Z (i + 1) == inject_Z i + 1)%Q)
    by (rewrite inject_Z_plus; reflexivity).
  assert (Hmg : (0 < rounding_margin)%Q) by reflexivity.
  set (x := (u * inject_Z n)%Q).
  assert (Hx : (inject_Z i + rounding_margin <= x)%Q /\
               (x < inject_Z (i + 1) - rounding_margin)%Q).
  { unfold x. split.
    - apply Qle_trans with ((inject_Z i / inject_Z n + rounding_margin) * inject_Z n)%Q.
      + setoid_replace ((inject_Z i / inject_Z n + rounding_margin) * inject_Z n)%Q
          with (inject_Z i + rounding_margin * inject_Z n)%Q by (field; lra).
        nra.
      + apply Qmult_le_compat_r; [exact Hlo | lra].
    - apply Qlt_le_trans
        with ((inject_Z (i + 1) / inject_Z n - rounding_margin) * inject_Z n)%Q.
      + apply Qmult_lt_compat_r; [lra | exact Hhi].
      + setoid_replace ((inject_Z (i + 1) / inject_Z n - rounding_margin) * inject_Z n)%Q
          with (inject_Z (i + 1) - rounding_margin * inject_Z n)%Q by (field; lra).
        nra. }
  destruct Hx as [Hxlo Hxhi].
  assert (Hx4 : (x < 4)%Q) by lra.
  destruct (round64_close Hx4) as [Hrlo Hrhi].
  assert (Hidx : JS.index arr i = nth_error arr (Z.to_nat i)).
  { unfold JS.index. destruct (i <? 0) eqn:E; [apply Z.ltb_lt in E; lia | reflexivity]. }
  unfold draw, draw_binary64. fold n. fold x.
  rewrite (@floor_between x i), (@floor_between (round64 x) i), Hidx by lra.
  split; reflexivity.
Qed.

(** *** One agent *)

(** The relocation block as the model has it, read off [updateAI]. *)
Lemma relocation_model now us w k :
  named w ->
  Def.activeFrom (animDefs k) <= night w ->
  inOffice (get k (anims w)) = false ->
  let a := get k (anims w) in
  let a' := get k (anims (updateAI now us w)) in
  ((interval_of (night w) a < inject_Z (now - lastMove a))%Q ->
     cam a' = draw (Def.allowed (animDefs k)) (us k) /\
     lastMove a' = now /\ lastSeen a' = now) /\
  (~ (interval_of (night w) a < inject_Z (now - lastMove a))%Q ->
     cam a' = cam a /\ lastMove a' = lastMove a).
Proof.
  intros Hn Hact Hin a a'.
  assert (Ea' : a' = fst (outcome now us w k)) by apply updateAI_get.
  rewrite (@outcome_roaming now us w k Hn Hact Hin) in Ea'. fold a in Ea'.
  set (i0 := interval_of (night w) a) in *.
  set (m := moveStep now (us k) i0 (set_active true a)) in *.
  set (s := watchStep now (monitorOpen w) (monitorSingle w) m) in *.
  destruct (entryStep_fields now i0 (doorLeftClosed w) (doorRightClosed w) s)
    as (_ & Ec & Em & Es & _ & _).
  rewrite <- Ea' in Ec, Em, Es.
  destruct (watchStep_fields now (monitorOpen w) (monitorSingle w) m)
    as (_ & Wc & Wm & _ & _ & _).
  fold s in Wc, Wm.
  split.
  - intros Hel.
    assert (Emv : m = set_lastSeen now (set_lastMove now
                        (set_cam (draw (Def.allowed (animDefs k)) (us k)) (set_active true a)))).
    { unfold m. rewrite moveStep_elapsed by exact Hel.
      cbn [name set_active]. unfold a at 1. rewrite Hn. reflexivity. }
    split; [rewrite Ec, Wc, Emv; reflexivity|].
    split; [rewrite Em, Wm, Emv; reflexivity|].
    rewrite Es. unfold s, watchStep.
    destruct (monitorOpen w); [destruct (monitorSingle w) as [c|]|];
      [destruct (JS.same_cam (cam m) c)| |]; rewrite ?Emv; reflexivity.
  - intros Hwait.
    assert (Emv : m = set_active true a) by (apply moveStep_waiting; exact Hwait).
    split; [rewrite Ec, Wc, Emv | rewrite Em, Wm, Emv]; reflexivity.
Qed.

Lemma placed_get k c w : get k (anims (placed k c w)) = set_cam c (get k (anims w)).
Proof. destruct k; reflexivity. Qed.

Lemma placed_named k c w : named w -> named (placed k c w).
Proof.
  intros Hn j. pose proof (Hn j) as Hj. pose proof (Hn k) as Hk.
  destruct k, j; cbn in *; assumption.
Qed.

Lemma allowed_short k : Z.of_nat (length (Def.allowed (animDefs k))) <= 4.
Proof. destruct k; cbn; lia. Qed.

(** With the product rounded, too, a draw is an element of the array, for
    every number below 1. *)
Lemma draw_binary64_member k u :
  (0 <= u)%Q -> (u <= 1 - (1 # 2 ^ 53))%Q ->
  exists c, draw_binary64 (Def.allowed (animDefs k)) u = Some c /\
            In c (Def.allowed (animDefs k)).
Proof.
  intros H0 H1. unfold draw_binary64. apply index_Some.
  apply round64_below; [destruct k; cbn; auto | exact H0 | exact H1].
Qed.

(** Each allowed location is drawn by one of [eighths], rounded or not. *)
Lemma eighths_onto k c :
  In c (Def.allowed (animDefs k)) ->
  exists u, In u eighths /\
            draw_binary64 (Def.allowed (animDefs k)) u = Some c /\
            draw (Def.allowed (animDefs k)) u = Some c.
Proof.
  intros Hc.
  assert (H1 : In 0.125%Q eighths) by (cbn; auto).
  assert (H2 : In 0.375%Q eighths) by (cbn; auto).
  assert (H3 : In 0.625%Q eighths) by (cbn; auto).
  assert (H4 : In 0.875%Q eighths) by (cbn; auto).
  destruct k; cbn in Hc.
  - destruct Hc as [<-|[<-|[<-|[]]]].
    + exists 0.125%Q. split; [exact H1 | split; vm_compute; reflexivity].
    + exists 0.375%Q. split; [exact H2 | split; vm_compute; reflexivity].
    + exists 0.875%Q. split; [exact H4 | split; vm_compute; reflexivity].
  - destruct Hc as [<-|[<-|[<-|[]]]].
    + exists 0.125%Q. split; [exact H1 | split; vm_compute; reflexivity].
    + exists 0.375%Q. split; [exact H2 | split; vm_compute; reflexivity].
    + exists 0.875%Q. split; [exact H4 | split; vm_compute; reflexivity].
  - destruct Hc as [<-|[<-|[<-|[<-|[]]]]].
    + exists 0.125%Q. split; [exact H1 | split; vm_compute; reflexivity].
    + exists 0.375%Q. split; [exact H2 | split; vm_compute; reflexivity].
    + exists 0.625%Q. split; [exact H3 | split; vm_compute; reflexivity].
    + exists 0.875%Q. split; [exact H4 | split; vm_compute; reflexivity].
  - destruct Hc as [<-|[]].
    exists 0.125%Q. split; [exact H1 | split; vm_compute; reflexivity].
Qed.

(** C3. For an active agent outside the office, one [updateAI].  When
    [now - lastMove] exceeds the effective interval, the new location is an
    element of the agent's allowed array (so is the element picked with the
    product rounded to binary64, for every number below 1), and [lastMove]
    and [lastSeen] both become [now]; the new location is the same wherever
    the agent stood before; a draw in the [i]-th of the equally long
    intervals of [[0,1)], 2^-52 away from its ends, picks index [i], also
    with the product rounded to binary64; and every allowed location, the
    current one included, is picked by some draw.  Otherwise location and
    [lastMove] are unchanged. *)
Theorem C3_relocation now us w k :
  named w ->
  Def.activeFrom (animDefs k) <= night w ->
  inOffice (get k (anims w)) = false ->
  (0 <= us k)%Q -> (us k < 1)%Q ->
  let a := get k (anims w) in
  let a' := get k (anims (updateAI now us w)) in
  let arr := Def.allowed (animDefs k) in
  let n := Z.of_nat (length arr) in
  ((interval_of (night w) a < inject_Z (now - lastMove a))%Q ->
     (exists c, cam a' = Some c /\ In c arr) /\
     ((us k <= 1 - (1 # 2 ^ 53))%Q ->
        exists c, draw_binary64 arr (us k) = Some c /\ In c arr) /\
     lastMove a' = now /\ lastSeen a' = now /\ lastSeen a' = lastMove a' /\
     (forall c0, cam (get k (anims (updateAI now us (placed k c0 w)))) = cam a') /\
     (forall i, 0 <= i < n ->
        (inject_Z i / inject_Z n + rounding_margin <= us k)%Q ->
        (us k < inject_Z (i + 1) / inject_Z n - rounding_margin)%Q ->
        cam a' = nth_error arr (Z.to_nat i) /\
        draw_binary64 arr (us k) = nth_error arr (Z.to_nat i)) /\
     (forall c, In c arr ->
        exists u, In u eighths /\ draw_binary64 arr u = Some c /\
                  cam (get k (anims (updateAI now (fun _ => u) w))) = Some c)) /\
  (~ (interval_of (night w) a < inject_Z (now - lastMove a))%Q ->
     cam a' = cam a /\ lastMove a' = lastMove a).
Proof.
  intros Hn Hact Hin H0 H1 a a' arr n.
  destruct (@relocation_model now us w k Hn Hact Hin) as [Hmove Hwait].
  fold a in Hmove, Hwait. fold a' in Hmove, Hwait. fold arr in Hmove.
  split; [|exact Hwait].
  intros Hel. destruct (Hmove Hel) as (Hcam & Hlm & Hls).
  split; [rewrite Hcam; apply draw_member; [apply allowed_nonempty | exact H0 | exact H1]|].
  split; [intros Hmax; apply draw_binary64_member; [exact H0 | exact Hmax]|].
  split; [exact Hlm|]. split; [exact Hls|]. split; [congruence|].
  split; [|split].
  - intros c0.
    assert (Hin' : inOffice (get k (anims (placed k c0 w))) = false)
      by (rewrite placed_get; exact Hin).
    destruct (@relocation_model now us (placed k c0 w) k (placed_named k c0 Hn) Hact Hin')
      as [Hmove' _].
    rewrite placed_get in Hmove'.
    destruct (Hmove' Hel) as (Hcam' & _).
    rewrite Hcam', Hcam. reflexivity.
  - intros i Hi Hlo Hhi.
    destruct (@draw_inside arr (us k) i (allowed_short k) Hi Hlo Hhi) as [Hd Hd64].
    split; [rewrite Hcam; exact Hd | exact Hd64].
  - intros c Hc. destruct (@eighths_onto k c Hc) as (u & Hu & Hu64 & Hud).
    exists u. split; [exact Hu|]. split; [exact Hu64|].
    destruct (@relocation_model now (fun _ => u) w k Hn Hact Hin) as [Hmove' _].
    destruct (Hmove' Hel) as (Hcam' & _).
    rewrite Hcam'. exact Hud.
Qed.

(** ** Entry rules *)

Lemma set_inOffice_same a : inOffice a = false -> set_inOffice false a = a.
Proof. destruct a; cbn; intros ->; reflexivity. Qed.

Lemma set_inOffice_twice b c a : set_inOffice b (set_inOffice c a) = set_inOffice b a.
Proof. reflexivity. Qed.

(** For an active agent outside the office, whether [updateAI] sends it into
    the office is decided by [fires] on its fields as they stand after the
    relocation and monitor blocks of the same call. *)
Lemma roaming_entry now us w k :
  named w ->
  Def.activeFrom (animDefs k) <= night w ->
  inOffice (get k (anims w)) = false ->
  let a' := get k (anims (updateAI now us w)) in
  let f := fires now (interval_of (night w) (get k (anims w)))
                 (doorLeftClosed w) (doorRightClosed w) (set_inOffice false a') in
  name a' = k /\ inOffice a' = f /\
  snd (outcome now us w k) = (if f then [k] else []).
Proof.
  intros Hn Hact Hin a' f.
  assert (Ea' : a' = fst (outcome now us w k)) by apply updateAI_get.
  pose proof (@outcome_roaming now us w k Hn Hact Hin) as Eo.
  set (i0 := interval_of (night w) (get k (anims w))) in *.
  set (m := moveStep now (us k) i0 (set_active true (get k (anims w)))) in *.
  set (s := watchStep now (monitorOpen w) (monitorSingle w) m) in *.
  assert (Hs : name s = k /\ inOffice s = false).
  { destruct (watchStep_fields now (monitorOpen w) (monitorSingle w) m)
      as (W1 & _ & _ & W2 & _ & _).
    destruct (moveStep_fields now (us k) i0 (set_active true (get k (anims w))))
      as (M1 & M2 & _ & _).
    fold m in M1, M2. fold s in W1, W2.
    rewrite W1, W2, M1, M2. cbn. split; [apply Hn | exact Hin]. }
  destruct Hs as [Hname Hio].
  rewrite entryStep_eq in Eo.
  assert (Ef : f = fires now i0 (doorLeftClosed w) (doorRightClosed w) s).
  { unfold f. rewrite Ea', Eo.
    destruct (fires now i0 (doorLeftClosed w) (doorRightClosed w) s) eqn:E; cbn [fst].
    - rewrite set_inOffice_twice, (set_inOffice_same _ Hio). exact E.
    - rewrite (set_inOffice_same _ Hio). exact E. }
  rewrite Ef, Ea', Eo.
  destruct (fires now i0 (doorLeftClosed w) (doorRightClosed w) s);
    cbn; rewrite ?Hname; auto.
Qed.

(** What a new entry adds to the console and to the timeouts. *)
Lemma entry_recorded now us w k :
  named w ->
  snd (outcome now us w k) = [k] ->
  let w' := updateAI now us w in
  entryCount k (console w') = S (entryCount k (console w)) /\
  pending k (timeouts w') = pending k (timeouts w) ++ [(clock w + ENTRY_MS, k)] /\
  In (clock w + ENTRY_MS, k) (timeouts w').
Proof.
  intros Hn Hk w'. unfold w'.
  rewrite updateAI_console, updateAI_timeouts.
  unfold entryCount. rewrite count_occ_app.
  fold (entryCount k (console w)). fold (entryCount k (entries now us w)).
  rewrite (entries_count now us k Hn), Hk.
  unfold pending at 1. rewrite filter_app.
  fold (pending k (timeouts w)). fold (pending k (map (timeoutOf w) (entries now us w))).
  rewrite (entries_pending now us k Hn), Hk.
  split; [cbn; lia | split; [reflexivity|]].
  apply in_or_app. right. apply in_map_iff. exists k. split; [reflexivity|].
  apply (entries_In now us k Hn). exact Hk.
Qed.

Lemma no_entry_recorded now us w k :
  named w ->
  snd (outcome now us w k) = [] ->
  let w' := updateAI now us w in
  entryCount k (console w') = entryCount k (console w) /\
  pending k (timeouts w') = pending k (timeouts w).
Proof.
  intros Hn Hk w'. unfold w'.
  rewrite updateAI_console, updateAI_timeouts.
  unfold entryCount. rewrite count_occ_app.
  fold (entryCount k (console w)). fold (entryCount k (entries now us w)).
  rewrite (entries_count now us k Hn), Hk.
  unfold pending at 1. rewrite filter_app.
  fold (pending k (timeouts w)). fold (pending k (map (timeoutOf w) (entries now us w))).
  rewrite (entries_pending now us k Hn), Hk.
  cbn. rewrite app_nil_r. split; [lia | reflexivity].
Qed.

(** Location and timestamps of a roaming agent after [updateAI]: the entry
    rule does not touch them. *)
Lemma roaming_fields now us w k :
  named w ->
  Def.activeFrom (animDefs k) <= night w ->
  inOffice (get k (anims w)) = false ->
  let a := get k (anims w) in
  let a' := get k (anims (updateAI now us w)) in
  let m := moveStep now (us k) (interval_of (night w) a) (set_active true a) in
  cam a' = cam m /\ lastMove a' = lastMove m /\
  lastSeen a' = lastSeen (watchStep now (monitorOpen w) (monitorSingle w) m).
Proof.
  intros Hn Hact Hin a a' m.
  assert (Ea' : a' = fst (outcome now us w k)) by apply updateAI_get.
  rewrite (@outcome_roaming now us w k Hn Hact Hin) in Ea'.
  fold a in Ea'. fold m in Ea'.
  destruct (entryStep_fields now (interval_of (night w) a) (doorLeftClosed w)
              (doorRightClosed w) (watchStep now (monitorOpen w) (monitorSingle w) m))
    as (_ & Ec & Em & Es & _ & _).
  rewrite <- Ea' in Ec, Em, Es.
  destruct (watchStep_fields now (monitorOpen w) (monitorSingle w) m)
    as (_ & Wc & Wm & _ & _ & _).
  rewrite Ec, Em, Es, Wc, Wm. auto.
Qed.

(** [updateAI] adds an 'ENTRY:' line for agent [k] exactly when the agent is
    active, outside the office, and its rule fires. *)
Lemma entry_iff now us w k :
  named w ->
  let a := get k (anims w) in
  let w' := updateAI now us w in
  let a' := get k (anims w') in
  entryCount k (console w') = S (entryCount k (console w)) <->
  Def.activeFrom (animDefs k) <= night w /\ inOffice a = false /\
  fires now (interval_of (night w) a) (doorLeftClosed w) (doorRightClosed w)
        (set_inOffice false a') = true.
Proof.
  intros Hn a w' a'.
  assert (Ec : entryCount k (console w') =
               (entryCount k (console w) + length (snd (outcome now us w k)))%nat).
  { unfold w'. rewrite updateAI_console. unfold entryCount. rewrite count_occ_app.
    fold (entryCount k (entries now us w)).
    rewrite (entries_count now us k Hn). reflexivity. }
  destruct (Z_lt_le_dec (night w) (Def.activeFrom (animDefs k))) as [Hd|Hact].
  { assert (E : snd (outcome now us w k) = []).
    { unfold outcome. rewrite animStep_dormant; [reflexivity | rewrite Hn; exact Hd]. }
    rewrite Ec, E. cbn. split; [lia | intros (H & _); lia]. }
  destruct (inOffice a) eqn:Hin.
  { assert (E : snd (outcome now us w k) = []).
    { unfold outcome. rewrite animStep_breached;
        [reflexivity | rewrite Hn; exact Hact | exact Hin]. }
    rewrite Ec, E. cbn. split; [lia | intros (_ & H & _); discriminate]. }
  destruct (@roaming_entry now us w k Hn Hact Hin) as (_ & _ & E).
  fold a a' w' in E. rewrite Ec, E.
  destruct (fires _ _ _ _ _); cbn; split; try lia; intuition (try discriminate; auto).
Qed.

Lemma same_cam_eq c m : JS.same_cam c m = true <-> c = Some m.
Proof.
  unfold JS.same_cam. destruct c as [x|]; [|split; discriminate].
  rewrite Z.eqb_eq. split; [intros ->; reflexivity | intros [= ->]; reflexivity].
Qed.

(** The location+door rule of [vale] (camera 3, right door) and of [patch]
    (camera 6, left door): with the agent active and outside the office,
    standing at the camera the rule tests when the rule is evaluated, and
    that door open, [updateAI] puts it in the office, logs one entry and
    registers its timeout. *)
Lemma door_rule now us w k trigger door :
  (k = vale /\ trigger = 3 /\ door = doorRightClosed w) \/
  (k = patch /\ trigger = 6 /\ door = doorLeftClosed w) ->
  named w ->
  Def.activeFrom (animDefs k) <= night w ->
  inOffice (get k (anims w)) = false ->
  let w' := updateAI now us w in
  let a' := get k (anims w') in
  cam a' = Some trigger -> door = false ->
  inOffice a' = true /\
  entryCount k (console w') = S (entryCount k (console w)) /\
  In (clock w + ENTRY_MS, k) (timeouts w').
Proof.
  intros Hk Hn Hact Hin w' a' Hcam Hdoor.
  destruct (@roaming_entry now us w k Hn Hact Hin) as (Hname & Hio & Hcalls).
  fold w' a' in Hname, Hio, Hcalls.
  assert (Hf : fires now (interval_of (night w) (get k (anims w)))
                 (doorLeftClosed w) (doorRightClosed w) (set_inOffice false a') = true).
  { unfold fires. cbn [name cam set_inOffice]. rewrite Hname, Hcam.
    destruct Hk as [(-> & -> & E)|(-> & -> & E)]; rewrite <- E, Hdoor; reflexivity. }
  rewrite Hf in Hio, Hcalls.
  split; [exact Hio|].
  destruct (@entry_recorded now us w k Hn Hcalls) as (H1 & _ & H3).
  split; assumption.
Qed.

(** C2. The camera tested by [vale]'s rule is one of [vale]'s allowed
    locations; the camera tested by [patch]'s rule, 6, is not one of
    [patch]'s, and no draw can place [patch] there. *)
Theorem C2_patch_trigger_not_allowed :
  In 3 (Def.allowed (animDefs vale)) /\
  ~ In 6 (Def.allowed (animDefs patch)) /\
  forall u, draw (Def.allowed (animDefs patch)) u <> Some 6.
Proof.
  split; [cbn; auto|]. split.
  - cbn. intros [H|[H|[H|[]]]]; discriminate.
  - intros u. unfold draw, JS.index.
    destruct (_ <? 0); [discriminate|].
    destruct (Z.to_nat _) as [|[|[|[|n]]]]; cbn; discriminate.
Qed.

(** ** Surveillance *)

(** C4. The monitor block of [updateAI], for an active agent outside the
    office: with the monitor open on the grid ([monitorSingle] null) its
    [lastSeen] becomes [now]; with a single camera selected, [lastSeen]
    becomes [now] if the agent stands at that camera and is left as the
    relocation block left it otherwise; with the monitor closed the block
    changes nothing, wherever the agent is. *)
Theorem C4_surveillance now us w k :
  named w ->
  Def.activeFrom (animDefs k) <= night w ->
  inOffice (get k (anims w)) = false ->
  let a := get k (anims w) in
  let a' := get k (anims (updateAI now us w)) in
  let m := moveStep now (us k) (interval_of (night w) a) (set_active true a) in
  let moved := (interval_of (night w) a < inject_Z (now - lastMove a))%Q in
  (monitorOpen w = true -> monitorSingle w = None -> lastSeen a' = now) /\
  (forall c, monitorOpen w = true -> monitorSingle w = Some c ->
     (cam a' = Some c -> lastSeen a' = now) /\
     (cam a' <> Some c -> lastSeen a' = lastSeen m) /\
     (cam a' <> Some c -> ~ moved -> lastSeen a' = lastSeen a)) /\
  (monitorOpen w = false ->
     watchStep now (monitorOpen w) (monitorSingle w) m = m /\
     lastSeen a' = lastSeen m /\
     (~ moved -> lastSeen a' = lastSeen a)).
Proof.
  intros Hn Hact Hin a a' m moved.
  destruct (@roaming_fields now us w k Hn Hact Hin) as (Hc & _ & Hs).
  fold a a' in Hc, Hs. fold m in Hc, Hs.
  assert (Hstay : ~ moved -> lastSeen m = lastSeen a).
  { intros Hw. unfold m. rewrite moveStep_waiting; [reflexivity | exact Hw]. }
  split; [|split].
  - intros Ho Hg. rewrite Hs, Ho, Hg. reflexivity.
  - intros c Ho Hg. rewrite Hs, Ho, Hg. unfold watchStep. rewrite <- Hc.
    destruct (JS.same_cam (cam a') c) eqn:E.
    + apply same_cam_eq in E.
      split; [reflexivity | split; intros Hne; contradiction].
    + assert (Hne : cam a' <> Some c).
      { intros Heq. apply same_cam_eq in Heq. congruence. }
      split; [intros Heq; contradiction|].
      split; [reflexivity | intros _ Hw; apply Hstay; exact Hw].
  - intros Ho. rewrite Hs, Ho. cbn. auto.
Qed.

(** With the monitor closed and no relocation, [updateAI] leaves [lastSeen]
    as it was. *)
Lemma lastSeen_closed now us w k :
  named w ->
  Def.activeFrom (animDefs k) <= night w ->
  inOffice (get k (anims w)) = false ->
  monitorOpen w = false ->
  ~ (interval_of (night w) (get k (anims w))
     < inject_Z (now - lastMove (get k (anims w))))%Q ->
  lastSeen (get k (anims (updateAI now us w))) = lastSeen (get k (anims w)).
Proof.
  intros Hn Hact Hin Hclosed Hwait.
  destruct (@roaming_fields now us w k Hn Hact Hin) as (_ & _ & Hs).
  rewrite Hs, Hclosed, moveStep_waiting by exact Hwait. reflexivity.
Qed.

(** ** The unseen-timeout rule *)

(** C5. [rust], active and outside the office: if, once the relocation and
    monitor blocks of this [updateAI] have run, [now - lastSeen] exceeds
    30000, the agent is put in the office, one entry line with its name is
    logged and its timeout is registered.  In particular this happens when
    [lastSeen] was [now - 31000], the monitor is closed and the agent does
    not relocate in this call. *)
Theorem C5_unseen_timeout now us w :
  named w ->
  Def.activeFrom (animDefs rust) <= night w ->
  inOffice (get rust (anims w)) = false ->
  let a := get rust (anims w) in
  let w' := updateAI now us w in
  let a' := get rust (anims w') in
  let raised :=
    inOffice a' = true /\
    entryCount rust (console w') = S (entryCount rust (console w)) /\
    In (clock w + ENTRY_MS, rust) (timeouts w') in
  (30000 < now - lastSeen a' -> raised) /\
  (lastSeen a = now - 31000 -> monitorOpen w = false ->
   ~ (interval_of (night w) a < inject_Z (now - lastMove a))%Q -> raised).
Proof.
  intros Hn Hact Hin a w' a' raised.
  destruct (@roaming_entry now us w rust Hn Hact Hin) as (Hname & Hio & Hcalls).
  fold w' a' in Hname, Hio, Hcalls.
  assert (Main : 30000 < now - lastSeen a' -> raised).
  { intros Hlate.
    assert (Hf : fires now (interval_of (night w) (get rust (anims w)))
                   (doorLeftClosed w) (doorRightClosed w) (set_inOffice false a') = true).
    { unfold fires. cbn [name lastSeen inOffice set_inOffice]. rewrite Hname.
      apply andb_true_iff. split; [apply Z.ltb_lt; exact Hlate | reflexivity]. }
    rewrite Hf in Hio, Hcalls.
    destruct (@entry_recorded now us w rust Hn Hcalls) as (H1 & _ & H3).
    unfold raised. auto. }
  split; [exact Main|].
  intros Hseen Hclosed Hwait. apply Main.
  pose proof (@lastSeen_closed now us w rust Hn Hact Hin Hclosed Hwait) as Hkeep.
  fold w' in Hkeep. fold a' in Hkeep. rewrite Hkeep. fold a. lia.
Qed.

(** ** The location+door+timing rule *)

(** C9. [updateAI] logs an entry for [lulla] if and only if it is active,
    outside the office, stands at camera 3 when its rule is evaluated, the
    right door is open, and [now - lastMove] is below 0.45 of its effective
    interval; then it is put in the office.  With the same location and door
    but [now - lastMove] at or above that fraction, nothing is logged and it
    stays outside. *)
Theorem C9_lulla_rule now us w :
  named w ->
  let a := get lulla (anims w) in
  let w' := updateAI now us w in
  let a' := get lulla (anims w') in
  let i := interval_of (night w) a in
  let ready :=
    Def.activeFrom (animDefs lulla) <= night w /\ inOffice a = false /\
    cam a' = Some 3 /\ doorRightClosed w = false in
  (entryCount lulla (console w') = S (entryCount lulla (console w)) <->
   ready /\ (inject_Z (now - lastMove a') < i * 0.45)%Q) /\
  (ready -> (inject_Z (now - lastMove a') < i * 0.45)%Q ->
   inOffice a' = true /\ In (clock w + ENTRY_MS, lulla) (timeouts w')) /\
  (ready -> (i * 0.45 <= inject_Z (now - lastMove a'))%Q ->
   inOffice a' = false /\
   entryCount lulla (console w') = entryCount lulla (console w) /\
   pending lulla (timeouts w') = pending lulla (timeouts w)).
Proof.
  intros Hn a w' a' i ready.
  assert (Hname : name a' = lulla).
  { unfold a', w'. rewrite updateAI_get. unfold outcome.
    rewrite animStep_name. apply Hn. }
  assert (Hf : fires now i (doorLeftClosed w) (doorRightClosed w) (set_inOffice false a')
               = JS.same_cam (cam a') 3 && negb (doorRightClosed w)
                 && JS.ltb (inject_Z (now - lastMove a')) (i * 0.45)).
  { unfold fires. cbn [name cam lastMove set_inOffice]. rewrite Hname. reflexivity. }
  assert (Hiff : fires now i (doorLeftClosed w) (doorRightClosed w) (set_inOffice false a') = true
                 <-> cam a' = Some 3 /\ doorRightClosed w = false /\
                     (inject_Z (now - lastMove a') < i * 0.45)%Q).
  { rewrite Hf, !andb_true_iff, same_cam_eq, negb_true_iff, ltb_lt. tauto. }
  split; [|split].
  - unfold w', a, i. rewrite (@entry_iff now us w lulla Hn).
    fold a w' a' i. rewrite Hiff. unfold ready. tauto.
  - intros (Hact & Hin & Hcam & Hdoor) Hquick.
    destruct (@roaming_entry now us w lulla Hn Hact Hin) as (_ & Hio & Hcalls).
    fold a w' a' i in Hio, Hcalls.
    rewrite (proj2 Hiff (conj Hcam (conj Hdoor Hquick))) in Hio, Hcalls.
    destruct (@entry_recorded now us w lulla Hn Hcalls) as (_ & _ & H3).
    split; assumption.
  - intros (Hact & Hin & Hcam & Hdoor) Hslow.
    destruct (@roaming_entry now us w lulla Hn Hact Hin) as (_ & Hio & Hcalls).
    fold a w' a' i in Hio, Hcalls.
    assert (Hno : fires now i (doorLeftClosed w) (doorRightClosed w)
                    (set_inOffice false a') = false).
    { rewrite Hf. apply andb_false_iff. right. apply ltb_ge. exact Hslow. }
    rewrite Hno in Hio, Hcalls.
    destruct (@no_entry_recorded now us w lulla Hn Hcalls) as (H1 & H2).
    auto.
Qed.

(** ** The breach and its timeout *)

(** An agent inside the office: [updateAI] recomputes [active] and returns. *)
Lemma outcome_breached now us w k :
  inOffice (get k (anims w)) = true ->
  let a := get k (anims w) in
  snd (outcome now us w k) = [] /\
  cam (fst (outcome now us w k)) = cam a /\
  lastMove (fst (outcome now us w k)) = lastMove a /\
  lastSeen (fst (outcome now us w k)) = lastSeen a /\
  inOffice (fst (outcome now us w k)) = true.
Proof.
  intros Hin a. unfold outcome. fold a.
  destruct (Z_lt_le_dec (night w) (Def.activeFrom (animDefs (name a)))) as [Hd|Hact].
  - rewrite animStep_dormant by exact Hd. cbn. auto.
  - rewrite animStep_breached by assumption. cbn. auto.
Qed.

(** If [updateAI] turns [inOffice] from false to true, it called
    [triggerEntry] for that agent. *)
Lemma outcome_raised now us w k :
  named w ->
  inOffice (get k (anims w)) = false ->
  inOffice (fst (outcome now us w k)) = true ->
  snd (outcome now us w k) = [k].
Proof.
  intros Hn Hin Hraised.
  destruct (Z_lt_le_dec (night w) (Def.activeFrom (animDefs k))) as [Hd|Hact].
  - unfold outcome in Hraised. rewrite animStep_dormant in Hraised
      by (rewrite Hn; exact Hd).
    cbn in Hraised. congruence.
  - destruct (@roaming_entry now us w k Hn Hact Hin) as (_ & Hio & Hcalls).
    rewrite updateAI_get in Hio, Hcalls. rewrite Hraised in Hio.
    rewrite <- Hio in Hcalls. exact Hcalls.
Qed.

Lemma entryExpired_get nm w j :
  get j (anims (entryExpired nm w)) =
  if AnimName_eqb j nm
  then set_lastMove (clock w) (set_inOffice false (get nm (anims w)))
  else get j (anims w).
Proof. destruct w as [? ? ? ? ? ? ? ? [? ? ? ?] ? ? ? ? ?]; destruct nm, j; reflexivity. Qed.

(** C6. While an agent is in the office, [updateAI] leaves its location,
    timestamps and breach flag alone, logs no entry for it and registers no
    timeout for it.  When [updateAI] raises a breach, one entry is logged and
    one timeout is registered, due 2200 after the clock reading of that
    call.  The callback of the timeout, run at clock reading [t], clears
    [inOffice] and sets [lastMove] to [t]: run at its due time, to the
    breach time plus 2200. *)
Theorem C6_breach_lifecycle :
  (forall now us w k,
     named w -> inOffice (get k (anims w)) = true ->
     let a := get k (anims w) in
     let w' := updateAI now us w in
     let a' := get k (anims w') in
     cam a' = cam a /\ lastMove a' = lastMove a /\ lastSeen a' = lastSeen a /\
     inOffice a' = true /\
     entryCount k (console w') = entryCount k (console w) /\
     pending k (timeouts w') = pending k (timeouts w)) /\
  (forall now us w k,
     named w -> inOffice (get k (anims w)) = false ->
     let w' := updateAI now us w in
     inOffice (get k (anims w')) = true ->
     entryCount k (console w') = S (entryCount k (console w)) /\
     pending k (timeouts w') = pending k (timeouts w) ++ [(clock w + 2200, k)]) /\
  (forall w k,
     let a := get k (anims w) in
     let a' := get k (anims (entryExpired k w)) in
     inOffice a' = false /\ lastMove a' = clock w /\
     cam a' = cam a /\ lastSeen a' = lastSeen a /\
     forall j, j <> k -> get j (anims (entryExpired k w)) = get j (anims w)) /\
  (forall w k t0,
     clock w = t0 + 2200 ->
     lastMove (get k (anims (entryExpired k w))) = t0 + 2200).
Proof.
  split; [|split; [|split]].
  - intros now us w k Hn Hin a w' a'.
    destruct (@outcome_breached now us w k Hin) as (Hc & H1 & H2 & H3 & H4).
    unfold a', w'. rewrite updateAI_get.
    destruct (@no_entry_recorded now us w k Hn Hc) as (H5 & H6).
    repeat split; assumption.
  - intros now us w k Hn Hin w' Hraised.
    unfold w' in Hraised. rewrite updateAI_get in Hraised.
    pose proof (@outcome_raised now us w k Hn Hin Hraised) as Hc.
    destruct (@entry_recorded now us w k Hn Hc) as (H1 & H2 & _).
    split; assumption.
  - intros w k a a'. unfold a'. rewrite entryExpired_get.
    rewrite (proj2 (AnimName_eqb_eq k k) eq_refl).
    cbn [inOffice lastMove cam lastSeen set_lastMove set_inOffice].
    repeat split; try reflexivity.
    intros j Hj. rewrite entryExpired_get.
    destruct (AnimName_eqb j k) eqn:E; [|reflexivity].
    apply AnimName_eqb_eq in E. contradiction.
  - intros w k t0 Ht. rewrite entryExpired_get.
    rewrite (proj2 (AnimName_eqb_eq k k) eq_refl). cbn. exact Ht.
Qed.

(** ** Invariants of a run *)

Lemma initFlags_get k w :
  get k (anims (initFlags w)) =
  set_active (night w >=? Def.activeFrom (animDefs k)) (get k (anims w)).
Proof. destruct w as [? ? ? ? ? ? ? ? [? ? ? ?] ? ? ? ? ?]; destruct k; reflexivity. Qed.

Lemma initFlags_clock w :
  started (initFlags w) = started w /\ night (initFlags w) = night w /\
  hour (initFlags w) = hour w /\ power (initFlags w) = power w.
Proof. destruct w; cbn; auto. Qed.

Lemma beginGamePlay_resume_get k w :
  get k (anims (beginGamePlay_resume w)) =
  set_active (night w >=? Def.activeFrom (animDefs k)) (get k (anims w)).
Proof. destruct w as [? ? ? ? ? ? ? ? [? ? ? ?] ? ? ? ? ?]; destruct k; reflexivity. Qed.

Lemma hourTick_get k u w :
  get k (anims (hourTick u w)) = get k (anims w) \/
  exists b, get k (anims (hourTick u w)) = set_active b (get k (anims w)).
Proof.
  unfold hourTick. destruct (negb (started w)); [left; reflexivity|].
  right. rewrite initFlags_get.
  destruct (7 <? _); destruct w as [? ? ? ? ? ? ? ? [? ? ? ?] ? ? ? ? ?];
    destruct k; eexists; reflexivity.
Qed.

Lemma handleTap_anims t w : anims (handleTap t w) = anims w.
Proof.
  unfold handleTap.
  destruct (inBar t); [destruct (monitorOpen (set_monitorOpen _ w)); reflexivity|].
  destruct (monitorOpen w); [reflexivity|].
  destruct (leftHalf t); reflexivity.
Qed.

Lemma handleTap_clock t w :
  night (handleTap t w) = night w /\ hour (handleTap t w) = hour w /\
  power (handleTap t w) = power w.
Proof.
  unfold handleTap.
  destruct (inBar t); [destruct (monitorOpen (set_monitorOpen _ w)); cbn; auto|].
  destruct (monitorOpen w); [cbn; auto|].
  destruct (leftHalf t); cbn; auto.
Qed.

(** What a step may do to one object of [anims]: nothing, a new [active]
    flag, the body of [updateAI], or the timeout callback. *)
Lemma step_get w w' k :
  step w w' ->
  get k (anims w') = get k (anims w) \/
  (exists b, get k (anims w') = set_active b (get k (anims w))) \/
  (exists us, (forall j, (0 <= us j)%Q /\ (us j < 1)%Q) /\
              get k (anims w') = fst (outcome (clock w) us w k)) \/
  (exists t, get k (anims w') = set_lastMove t (set_inOffice false (get k (anims w)))).
Proof.
  intros Hs. destruct Hs as [w|w Hp|w u Ht H0 H1|w us Hus|w pre due nm post Ht Hd|w t Hst|w dt Hdt].
  - left. reflexivity.
  - right; left. rewrite beginGamePlay_resume_get. eexists; reflexivity.
  - destruct (hourTick_get k u w) as [E|E]; [left | right; left]; exact E.
  - right; right; left. exists us. split; [exact Hus|]. unfold loop. apply updateAI_get.
  - rewrite entryExpired_get. cbn [anims set_timeouts clock].
    destruct (AnimName_eqb k nm) eqn:E.
    + apply AnimName_eqb_eq in E. subst nm. right; right; right.
      eexists; reflexivity.
    + left. reflexivity.
  - left. rewrite handleTap_anims. reflexivity.
  - left. reflexivity.
Qed.

Lemma loaded_named stamps t0 : named (loaded stamps t0).
Proof. intros k. destruct k; reflexivity. Qed.

Lemma step_named w w' : named w -> step w w' -> named w'.
Proof.
  intros Hn Hs k.
  destruct (step_get k Hs) as [E|[[b E]|[(us & _ & E)|[t E]]]]; rewrite E.
  - apply Hn.
  - cbn. apply Hn.
  - unfold outcome. rewrite animStep_name. apply Hn.
  - cbn. apply Hn.
Qed.

Lemma reachable_named w : reachable w -> named w.
Proof.
  induction 1 as [stamps t0|w w' _ IH Hs].
  - apply loaded_named.
  - eapply step_named; eassumption.
Qed.

(** ** The night clock *)

(** [Math.floor(Math.random()*6)] is one of 0..5. *)
Lemma drain_range u :
  (0 <= u)%Q -> (u < 1)%Q -> 0 <= JS.floor (u * 6) <= 5.
Proof.
  intros H0 H1.
  pose proof (@floor_scaled_range u 6 H0 H1 ltac:(lia)) as H.
  change (inject_Z 6) with 6%Q in H. lia.
Qed.

Lemma hourTick_started u w :
  started w = true ->
  hour (hourTick u w) = (if 7 <? hour w + 1 then 0 else hour w + 1) /\
  night (hourTick u w) = (if 7 <? hour w + 1 then Z.min 7 (night w + 1) else night w) /\
  power (hourTick u w) = Z.max 0 (power w - JS.floor (u * 6)).
Proof.
  intros Hst. unfold hourTick. rewrite Hst. cbn [negb].
  destruct (initFlags_clock
              (set_power
                 (Z.max 0
                    (power (if 7 <? hour (set_hour (hour w + 1) w)
                            then set_hour 0 (set_night (Z.min 7 (night (set_hour (hour w + 1) w) + 1))
                                               (set_hour (hour w + 1) w))
                            else set_hour (hour w + 1) w) - JS.floor (u * 6)))
                 (if 7 <? hour (set_hour (hour w + 1) w)
                  then set_hour 0 (set_night (Z.min 7 (night (set_hour (hour w + 1) w) + 1))
                                     (set_hour (hour w + 1) w))
                  else set_hour (hour w + 1) w)))
    as (_ & -> & -> & ->).
  cbn [hour set_hour]. destruct (7 <? hour w + 1); cbn; auto.
Qed.

Lemma hourTick_stopped u w : started w = false -> hourTick u w = w.
Proof. intros Hst. unfold hourTick. rewrite Hst. reflexivity. Qed.

(** How one event changes the clock: a menu click resets it, an hour tick
    of a started game advances it, everything else leaves it alone. *)
Lemma step_clock w w' :
  step w w' ->
  w' = startNewGame w \/
  (night w' = night w /\ hour w' = hour w /\ power w' = power w) \/
  (exists u, (0 <= u)%Q /\ (u < 1)%Q /\ started w = true /\ w' = hourTick u w).
Proof.
  intros Hs. destruct Hs as [w|w Hp|w u Ht H0 H1|w us Hus|w pre due nm post Ht Hd|w t Hst|w dt Hdt].
  - left. reflexivity.
  - right; left. unfold beginGamePlay_resume. cbn [night hour power set_tickers].
    destruct (initFlags_clock (set_preloading (Nat.pred (preloading w)) w))
      as (_ & -> & -> & ->). auto.
  - destruct (started w) eqn:Hst.
    + right; right. exists u. auto.
    + right; left. rewrite hourTick_stopped by exact Hst. auto.
  - right; left. unfold loop. rewrite updateAI_eq. cbn. auto.
  - right; left. cbn. auto.
  - right; left. apply handleTap_clock.
  - right; left. cbn. auto.
Qed.

Lemma step_clock_ok w w' : clock_ok w -> step w w' -> clock_ok w'.
Proof.
  intros (Hh & Hn & Hp) Hs. unfold clock_ok.
  destruct (step_clock Hs) as [->|[(-> & -> & ->)|(u & H0 & H1 & Hst & ->)]].
  - cbn. lia.
  - auto.
  - destruct (hourTick_started u w Hst) as (-> & -> & ->).
    pose proof (drain_range H0 H1).
    destruct (7 <? hour w + 1) eqn:E; [apply Z.ltb_lt in E | apply Z.ltb_ge in E]; lia.
Qed.

Lemma reachable_clock_ok w : reachable w -> clock_ok w.
Proof.
  induction 1 as [stamps t0|w w' _ IH Hs].
  - unfold clock_ok. cbn. lia.
  - eapply step_clock_ok; eassumption.
Qed.

(** C7. An hour tick of a started game adds 1 to [hour]; past 7 it sets
    [night] to [min(7, night+1)] and [hour] to 0; [power] becomes
    [max(0, power - d)] for the drawn [d] in 0..5.  In every state of a run
    [hour] is in 0..7, [night] in 1..7 and [power] in 0..100, and an event
    other than a menu click never lowers [night], raises it by at most 1 and
    only on a wrap of [hour] from 7 to 0, and never raises [power]. *)
Theorem C7_night_clock :
  (forall u w,
     started w = true -> (0 <= u)%Q -> (u < 1)%Q ->
     hour (hourTick u w) = (if 7 <? hour w + 1 then 0 else hour w + 1) /\
     night (hourTick u w) = (if 7 <? hour w + 1 then Z.min 7 (night w + 1) else night w) /\
     exists d, 0 <= d <= 5 /\ power (hourTick u w) = Z.max 0 (power w - d)) /\
  (forall w, reachable w ->
     0 <= hour w <= 7 /\ 1 <= night w <= 7 /\ 0 <= power w <= 100) /\
  (forall w w', reachable w -> step w w' ->
     w' = startNewGame w \/
     (night w <= night w' <= night w + 1 /\
      (night w' <> night w -> hour w = 7 /\ hour w' = 0 /\ night w' = night w + 1) /\
      (hour w' = hour w \/ hour w' = hour w + 1 \/ (hour w = 7 /\ hour w' = 0)) /\
      power w - 5 <= power w' <= power w)).
Proof.
  split; [|split].
  - intros u w Hst H0 H1.
    destruct (hourTick_started u w Hst) as (Hh & Hn & Hp).
    split; [exact Hh|]. split; [exact Hn|].
    exists (JS.floor (u * 6)). split; [apply drain_range; assumption | exact Hp].
  - intros w Hr. apply reachable_clock_ok. exact Hr.
  - intros w w' Hr Hs.
    destruct (reachable_clock_ok Hr) as (Hh & Hn & Hp).
    destruct (step_clock Hs) as [E|[(En & Eh & Ep)|(u & H0 & H1 & Hst & ->)]].
    + left. exact E.
    + right. rewrite En, Eh, Ep. repeat split; lia.
    + right. destruct (hourTick_started u w Hst) as (-> & -> & ->).
      pose proof (drain_range H0 H1).
      destruct (7 <? hour w + 1) eqn:E; [apply Z.ltb_lt in E | apply Z.ltb_ge in E];
        repeat split; try lia.
Qed.

(** ** [patch] *)

Lemma outcome_patch now us w :
  named w ->
  (0 <= us patch)%Q -> (us patch < 1)%Q ->
  patch_ok (get patch (anims w)) ->
  patch_ok (fst (outcome now us w patch)) /\ snd (outcome now us w patch) = [].
Proof.
  intros Hn H0 H1 (Hin & c & Hc & Hallowed).
  destruct (Z_lt_le_dec (night w) (Def.activeFrom (animDefs patch))) as [Hd|Hact].
  { unfold outcome. rewrite animStep_dormant by (rewrite Hn; exact Hd).
    cbn [fst snd]. split; [|reflexivity]. split; [exact Hin|]. exists c. auto. }
  destruct (@roaming_entry now us w patch Hn Hact Hin) as (Hname & Hio & Hcalls).
  destruct (@roaming_fields now us w patch Hn Hact Hin) as (Hcam & _ & _).
  rewrite updateAI_get in Hname, Hio, Hcalls, Hcam.
  set (a' := fst (outcome now us w patch)) in *.
  assert (Hloc : exists c', cam a' = Some c' /\ In c' (Def.allowed (animDefs patch))).
  { rewrite Hcam. unfold moveStep.
    destruct (JS.ltb _ _).
    - cbn [cam set_cam set_lastMove set_lastSeen name set_active].
      rewrite Hn. apply draw_member; [apply allowed_nonempty | exact H0 | exact H1].
    - cbn. exists c. auto. }
  assert (Hf : fires now (interval_of (night w) (get patch (anims w)))
                 (doorLeftClosed w) (doorRightClosed w) (set_inOffice false a') = false).
  { unfold fires. cbn [name cam set_inOffice]. rewrite Hname.
    destruct Hloc as (c' & -> & Hc').
    cbn in Hc'. destruct Hc' as [<-|[<-|[<-|[]]]]; reflexivity. }
  rewrite Hf in Hio, Hcalls.
  split; [split; assumption | exact Hcalls].
Qed.

Lemma hourTick_console u w : console (hourTick u w) = console w.
Proof.
  unfold hourTick. destruct (negb (started w)); [reflexivity|].
  destruct (7 <? _); destruct w; reflexivity.
Qed.

Lemma handleTap_console t w : console (handleTap t w) = console w.
Proof.
  unfold handleTap.
  destruct (inBar t); [destruct (monitorOpen (set_monitorOpen _ w)); reflexivity|].
  destruct (monitorOpen w); [reflexivity|].
  destruct (leftHalf t); reflexivity.
Qed.

(** Only an animation frame writes to the console. *)
Lemma step_console w w' :
  step w w' ->
  console w' = console w \/
  exists us, (forall j, (0 <= us j)%Q /\ (us j < 1)%Q) /\
             console w' = console w ++ entries (clock w) us w.
Proof.
  intros Hs. destruct Hs as [w|w Hp|w u Ht H0 H1|w us Hus|w pre due nm post Ht Hd|w t Hst|w dt Hdt].
  - left. reflexivity.
  - left. destruct w; reflexivity.
  - left. apply hourTick_console.
  - right. exists us. split; [exact Hus|]. unfold loop. apply updateAI_console.
  - left. reflexivity.
  - left. apply handleTap_console.
  - left. reflexivity.
Qed.

Lemma step_patch_inv w w' :
  named w -> patch_inv w -> step w w' -> patch_inv w'.
Proof.
  intros Hn (Hok & Hcount) Hs. split.
  - destruct (step_get patch Hs) as [E|[[b E]|[(us & Hus & E)|[t E]]]]; rewrite E.
    + exact Hok.
    + destruct Hok as (Hin & Hloc). split; [exact Hin | exact Hloc].
    + destruct (Hus patch) as (H0 & H1).
      apply (@outcome_patch (clock w) us w Hn H0 H1 Hok).
    + destruct Hok as (Hin & Hloc). split; [reflexivity | exact Hloc].
  - destruct (step_console Hs) as [E|(us & Hus & E)]; rewrite E; [exact Hcount|].
    destruct (Hus patch) as (H0 & H1).
    destruct (@outcome_patch (clock w) us w Hn H0 H1 Hok) as (_ & Hnone).
    unfold entryCount. rewrite count_occ_app.
    fold (entryCount patch (console w)). fold (entryCount patch (entries (clock w) us w)).
    rewrite (entries_count (clock w) us patch Hn), Hnone, Hcount. reflexivity.
Qed.

Lemma reachable_patch_inv w : reachable w -> patch_inv w.
Proof.
  induction 1 as [stamps t0|w w' Hr IH Hs].
  - split; [|reflexivity]. split; [reflexivity|]. exists 1. cbn. auto.
  - eapply step_patch_inv; [apply reachable_named | |]; eassumption.
Qed.

(** C10. In every state of a run [patch] stands at 1, 2 or 4 and is not in
    the office; no entry was ever logged for it; and whatever the time and
    the draws, the next [updateAI] does not put it in the office either,
    because its rule tests camera 6. *)
Theorem C10_patch_never_enters w :
  reachable w ->
  let a := get patch (anims w) in
  (cam a = Some 1 \/ cam a = Some 2 \/ cam a = Some 4) /\
  inOffice a = false /\
  entryCount patch (console w) = 0%nat /\
  JS.same_cam (cam a) 6 = false /\
  forall now us,
    (0 <= us patch)%Q -> (us patch < 1)%Q ->
    inOffice (get patch (anims (updateAI now us w))) = false /\
    entryCount patch (console (updateAI now us w)) = 0%nat.
Proof.
  intros Hr a.
  pose proof (reachable_named Hr) as Hn.
  destruct (reachable_patch_inv Hr) as (Hok & Hcount).
  assert (Hloc : cam a = Some 1 \/ cam a = Some 2 \/ cam a = Some 4).
  { destruct Hok as (_ & c & Hc & Hin). fold a in Hc. rewrite Hc.
    cbn in Hin. destruct Hin as [<-|[<-|[<-|[]]]]; auto. }
  split; [exact Hloc|]. split; [apply Hok|]. split; [exact Hcount|]. split.
  - destruct Hloc as [E | [E | E]]; rewrite E; reflexivity.
  - intros now us H0 H1.
    destruct (@outcome_patch now us w Hn H0 H1 Hok) as ((Hin & _) & Hnone).
    rewrite updateAI_get. split; [exact Hin|].
    rewrite updateAI_console. unfold entryCount. rewrite count_occ_app.
    fold (entryCount patch (console w)). fold (entryCount patch (entries now us w)).
    rewrite (entries_count now us patch Hn), Hnone, Hcount. reflexivity.
Qed.

(** ** A new game *)

Lemma run_frame_reachable : reachable run_frame.
Proof.
  unfold run_frame. eapply reach_step; [|apply step_frame].
  - unfold run_wait. eapply reach_step; [|apply step_time; lia].
    unfold run_start, newGame. eapply reach_step; [|apply step_preloaded; cbn; lia].
    eapply reach_step; [apply reach_loaded | apply step_menu].
  - intros _. split; [discriminate | reflexivity].
Qed.

(** What that frame leaves behind. *)
Example run_frame_state :
  get lulla (anims run_frame) = mkAnim lulla (Some 3) 51201 32000 true true 51201 /\
  get vale (anims run_frame) = mkAnim vale (Some 1) 0 25000 false false 0 /\
  console run_frame = [lulla] /\
  timeouts run_frame = [(53401, lulla)] /\
  night run_frame = 1 /\ tickers run_frame = 1%nat.
Proof. vm_compute. repeat split; reflexivity. Qed.

(** 2200 ms later the timeout runs: [lulla] is back outside, still at
    camera 3, and [lastMove] is the time of the callback. *)
Example run_frame_expired :
  get lulla (anims (entryExpired lulla (set_clock 53401 (set_timeouts [] run_frame)))) =
  mkAnim lulla (Some 3) 53401 32000 false true 51201.
Proof. vm_compute. reflexivity. Qed.

Lemma startNewGame_anims w : anims (startNewGame w) = anims w.
Proof. reflexivity. Qed.

Lemma newGame_get k w :
  get k (anims (newGame w)) =
  set_active (1 >=? Def.activeFrom (animDefs k)) (get k (anims w)).
Proof. unfold newGame. rewrite beginGamePlay_resume_get. reflexivity. Qed.

Lemma newGame_clock w :
  night (newGame w) = 1 /\ hour (newGame w) = 0 /\ power (newGame w) = 100.
Proof. destruct w; cbn; auto. Qed.

Lemma idle_minute_reachable : reachable idle_minute.
Proof.
  unfold idle_minute.
  change 60000 with (clock (loaded (fun _ => (0, 0)) 0) + 60000).
  eapply reach_step; [apply reach_loaded | apply step_time; lia].
Qed.

(** While no frame has run, every agent is as the script created it, and
    no timeout is pending. *)
Lemma frameless_untouched stamps w :
  frameless stamps w ->
  timeouts w = [] /\
  forall k,
    cam (get k (anims w)) = Some (Def.start (animDefs k)) /\
    inOffice (get k (anims w)) = false /\
    lastMove (get k (anims w)) = fst (stamps k) /\
    lastSeen (get k (anims w)) = snd (stamps k).
Proof.
  induction 1 as [t0|w _ IH|w _ IH Hp|w u _ IH Ht H0 H1
                  |w pre due nm post _ IH Ht Hd|w t _ IH Hst|w dt _ IH Hdt];
    destruct IH as [IHt IHk] || idtac.
  - split; [reflexivity|]. intros k. destruct k; cbn; auto.
  - split; [exact IHt | exact IHk].
  - split; [destruct w; exact IHt|].
    intros k. rewrite beginGamePlay_resume_get. exact (IHk k).
  - split.
    + unfold hourTick. destruct (negb (started w)); [exact IHt|].
      destruct (7 <? _); destruct w; exact IHt.
    + intros k. destruct (hourTick_get k u w) as [E|[b E]]; rewrite E; exact (IHk k).
  - rewrite IHt in Ht. destruct pre; discriminate Ht.
  - split.
    + unfold handleTap.
      destruct (inBar t); [destruct (monitorOpen (set_monitorOpen _ w)); exact IHt|].
      destruct (monitorOpen w); [exact IHt|].
      destruct (leftHalf t); exact IHt.
    + intros k. rewrite handleTap_anims. exact (IHk k).
  - split; [exact IHt | exact IHk].
Qed.

(** A frameless run is a run. *)
Lemma frameless_reachable stamps w : frameless stamps w -> reachable w.
Proof.
  induction 1 as [t0|w _ IH|w _ IH Hp|w u _ IH Ht H0 H1
                  |w pre due nm post _ IH Ht Hd|w t _ IH Hst|w dt _ IH Hdt].
  - apply reach_loaded.
  - eapply reach_step; [exact IH | apply step_menu].
  - eapply reach_step; [exact IH | apply step_preloaded; exact Hp].
  - eapply reach_step; [exact IH | apply step_hour; assumption].
  - eapply reach_step; [exact IH | eapply step_timeout; eassumption].
  - eapply reach_step; [exact IH | apply step_tap; exact Hst].
  - eapply reach_step; [exact IH | apply step_time; exact Hdt].
Qed.

Lemma idle_minute_frameless : frameless (fun _ => (0, 0)) idle_minute.
Proof.
  unfold idle_minute.
  change 60000 with (clock (loaded (fun _ => (0, 0)) 0) + 60000).
  apply frameless_time; [apply frameless_loaded | lia].
Qed.

(** C1, as stated, fails.  A new game started a minute after the script was
    loaded, with nothing but time in between, keeps the load-time
    [lastMove]: the timestamps are not set by the call. *)
Lemma C1_agents_not_reset :
  reachable idle_minute /\
  clock idle_minute = 60000 /\
  lastMove (get lulla (anims (newGame idle_minute))) = 0 /\
  lastSeen (get lulla (anims (newGame idle_minute))) = 0 /\
  ~ resets_everything idle_minute.
Proof.
  split; [apply idle_minute_reachable|]. split; [reflexivity|].
  split; [reflexivity|]. split; [reflexivity|].
  intros (_ & _ & _ & H). destruct (H lulla) as (_ & Hlm & _).
  vm_compute in Hlm. discriminate.
Qed.

(** C1, amended. [startNewGame] marks the game started, sets the clock to
    night 1, hour 0, power 100 and does not touch [anims].  Once the preload
    is over, [beginGamePlay] sets each [active] flag from the night: after a
    new game only [lulla] is active.  Location, timestamps and [inOffice] of
    every agent are what they were before the call; when no frame has run
    since the script was loaded, whatever else has happened, that is the
    starting location, the load-time readings and [false]. *)
Theorem C1_newGame_clock_and_flags :
  (forall w,
     started (startNewGame w) = true /\ night (startNewGame w) = 1 /\
     hour (startNewGame w) = 0 /\ power (startNewGame w) = 100 /\
     anims (startNewGame w) = anims w) /\
  (forall w,
     night (newGame w) = 1 /\ hour (newGame w) = 0 /\ power (newGame w) = 100 /\
     active (get vale (anims (newGame w))) = false /\
     active (get patch (anims (newGame w))) = false /\
     active (get lulla (anims (newGame w))) = true /\
     active (get rust (anims (newGame w))) = false) /\
  (forall w k,
     active (get k (anims (newGame w))) = (1 >=? Def.activeFrom (animDefs k)) /\
     cam (get k (anims (newGame w))) = cam (get k (anims w)) /\
     lastMove (get k (anims (newGame w))) = lastMove (get k (anims w)) /\
     lastSeen (get k (anims (newGame w))) = lastSeen (get k (anims w)) /\
     inOffice (get k (anims (newGame w))) = inOffice (get k (anims w))) /\
  (forall stamps w k,
     frameless stamps w ->
     cam (get k (anims (newGame w))) = Some (Def.start (animDefs k)) /\
     inOffice (get k (anims (newGame w))) = false /\
     lastMove (get k (anims (newGame w))) = fst (stamps k) /\
     lastSeen (get k (anims (newGame w))) = snd (stamps k)).
Proof.
  split; [|split; [|split]].
  - intros w. cbn. auto.
  - intros w. destruct (newGame_clock w) as (-> & -> & ->).
    rewrite !newGame_get. cbn. auto 10.
  - intros w k. rewrite newGame_get. cbn. auto.
  - intros stamps w k Hf. rewrite newGame_get.
    destruct (frameless_untouched Hf) as [_ Hk]. exact (Hk k).
Qed.

(** ** The difficulty table *)

Lemma speed_outside n : n < 1 \/ 7 < n -> speed n = 1.0%Q.
Proof.
  intros H. destruct n as [|p|p]; try reflexivity.
  destruct p as [[[p|p|]|[p|p|]|]|[[p|p|]|[p|p|]|]|]; try reflexivity; lia.
Qed.

Lemma speed_spec n : speed n = Spec.difficultyMultiplier n.
Proof.
  unfold Spec.difficultyMultiplier, Spec.difficultyTable. cbn [find fst snd].
  repeat match goal with
  | |- context [?x =? n] =>
      destruct (Z.eqb_spec x n) as [<-|?]; [reflexivity|]
  end.
  apply speed_outside. lia.
Qed.

(** [baseInterval] is copied from [animDefs] at load time and never
    assigned again. *)
Lemma reachable_baseInterval w k :
  reachable w -> baseInterval (get k (anims w)) = Def.baseInterval (animDefs k).
Proof.
  induction 1 as [stamps t0|w w' Hr IH Hs].
  - destruct k; reflexivity.
  - destruct (step_get k Hs) as [E|[[b E]|[(us & _ & E)|[t E]]]]; rewrite E.
    + exact IH.
    + exact IH.
    + unfold outcome. rewrite animStep_baseInterval. exact IH.
    + exact IH.
Qed.

(** C8. The multiplier [updateAI] uses is the table value on nights 1..7
    and 1.0 on any other night, and the interval it compares with is
    [max(700, baseInterval * multiplier)], for every agent of a run with the
    [baseInterval] of its definition. *)
Theorem C8_difficulty_interval :
  (speed 1 = 1.6%Q /\ speed 2 = 1.25%Q /\ speed 3 = 1.0%Q /\ speed 4 = 0.95%Q /\
   speed 5 = 0.85%Q /\ speed 6 = 0.6%Q /\ speed 7 = 0.5%Q) /\
  (forall n, n < 1 \/ 7 < n -> speed n = 1.0%Q) /\
  (forall n, speed n = Spec.difficultyMultiplier n) /\
  (forall n a, interval_of n a = Spec.effectiveInterval (baseInterval a) n) /\
  (forall n a,
     (700 <= interval_of n a)%Q /\
     (inject_Z (baseInterval a) * speed n <= interval_of n a)%Q /\
     (interval_of n a = 700%Q \/ interval_of n a = (inject_Z (baseInterval a) * speed n)%Q)) /\
  (forall w k, reachable w ->
     interval_of (night w) (get k (anims w)) =
     Spec.effectiveInterval (Def.baseInterval (animDefs k)) (night w)).
Proof.
  split; [repeat split; reflexivity|].
  split; [exact speed_outside|].
  split; [exact speed_spec|].
  split; [intros n a; unfold interval_of, Spec.effectiveInterval;
          rewrite speed_spec; reflexivity|].
  split.
  - intros n a. unfold interval_of.
    split; [apply Q.le_max_l|]. split; [apply Q.le_max_r|].
    unfold Qmax, GenericMinMax.gmax.
    destruct (700 ?= inject_Z (baseInterval a) * speed n)%Q; auto.
  - intros w k Hr. unfold interval_of, Spec.effectiveInterval.
    rewrite speed_spec, (reachable_baseInterval k Hr). reflexivity.
Qed.

(** ** The same numbers in binary64 *)

(** For every agent and every night of the table, the interval computed in
    binary64 is an integer, the one the rational model computes; so is
    [interval * 0.45] for [lulla].  Timestamps are integers below 2^53, so
    the comparisons of [updateAI] have the same outcome in both readings. *)
Lemma intervals_exact :
  forallb (fun k =>
    forallb (fun n =>
      agree (Spec.effectiveInterval (Def.baseInterval (animDefs k)) n)
            (interval_binary64 n (Def.baseInterval (animDefs k))))
      nights) Object_keys = true /\
  forallb (fun n =>
    agree (Spec.effectiveInterval (Def.baseInterval (animDefs lulla)) n * 0.45)
          (PrimFloat.mul (interval_binary64 n (Def.baseInterval (animDefs lulla)))
                         0.45%float))
    nights = true.
Proof. split; vm_compute; reflexivity. Qed.

(** ** The theorems at concrete states *)

Lemma run_wait_named : named run_wait.
Proof. intros k; destruct k; reflexivity. Defined.

Lemma late_night_named : named late_night.
Proof. intros k; destruct k; reflexivity. Defined.

Lemma watching_named : named watching.
Proof. intros k; destruct k; reflexivity. Defined.

Lemma run_frame_named : named run_frame.
Proof. intros k; destruct k; reflexivity. Defined.

Lemma quarter_lo k : (0 <= quarter k)%Q.
Proof. unfold quarter, Qle; simpl; lia. Defined.

Lemma quarter_hi k : (quarter k < 1)%Q.
Proof. unfold quarter, Qlt; simpl; lia. Defined.

(** A first game, started a minute after the script was loaded, with no
    frame in between: [lulla] is at its starting camera, outside the office,
    with the timestamps of the load. *)
Lemma C1_newGame_clock_and_flags_witness :
  frameless (fun _ => (0, 0)) idle_minute /\
  clock idle_minute = 60000 /\
  cam (get lulla (anims (newGame idle_minute))) = Some 1 /\
  inOffice (get lulla (anims (newGame idle_minute))) = false /\
  lastMove (get lulla (anims (newGame idle_minute))) = 0 /\
  lastSeen (get lulla (anims (newGame idle_minute))) = 0 /\
  active (get lulla (anims (newGame idle_minute))) = true /\
  active (get rust (anims (newGame idle_minute))) = false.
Proof.
  destruct C1_newGame_clock_and_flags as (_ & Hflags & _ & Hfresh).
  destruct (Hfresh (fun _ => (0, 0)) idle_minute lulla idle_minute_frameless)
    as (H1 & H2 & H3 & H4).
  destruct (Hflags idle_minute) as (_ & _ & _ & _ & _ & Hl & Hr).
  split; [exact idle_minute_frameless|]. split; [reflexivity|].
  split; [exact H1|]. split; [exact H2|]. split; [exact H3|]. split; [exact H4|].
  split; [exact Hl | exact Hr].
Defined.

Lemma three_eighths_lo k : (0 <= three_eighths k)%Q.
Proof. unfold three_eighths, Qle; simpl; lia. Defined.

Lemma three_eighths_hi k : (three_eighths k < 1)%Q.
Proof. unfold three_eighths, Qlt; simpl; lia. Defined.

(** [lulla] relocates in [run_wait]: the draw 0.375 lies well inside the
    second quarter of [[0,1)] and picks index 1 of [1,3,4,5]. *)
Lemma C3_relocation_witness :
  named run_wait /\
  Def.activeFrom (animDefs lulla) <= night run_wait /\
  inOffice (get lulla (anims run_wait)) = false /\
  (interval_of (night run_wait) (get lulla (anims run_wait))
   < inject_Z (51201 - lastMove (get lulla (anims run_wait))))%Q /\
  (inject_Z 1 / inject_Z 4 + rounding_margin <= three_eighths lulla)%Q /\
  (three_eighths lulla < inject_Z (1 + 1) / inject_Z 4 - rounding_margin)%Q /\
  cam (get lulla (anims (updateAI 51201 three_eighths run_wait))) = Some 3 /\
  draw_binary64 (Def.allowed (animDefs lulla)) (three_eighths lulla) = Some 3 /\
  lastMove (get lulla (anims (updateAI 51201 three_eighths run_wait))) = 51201 /\
  lastSeen (get lulla (anims (updateAI 51201 three_eighths run_wait))) = 51201.
Proof.
  assert (Hact : Def.activeFrom (animDefs lulla) <= night run_wait) by (vm_compute; discriminate).
  assert (Hin : inOffice (get lulla (anims run_wait)) = false) by reflexivity.
  assert (Hel : (interval_of (night run_wait) (get lulla (anims run_wait))
                 < inject_Z (51201 - lastMove (get lulla (anims run_wait))))%Q)
    by (vm_compute; reflexivity).
  assert (Hlo : (inject_Z 1 / inject_Z 4 + rounding_margin <= three_eighths lulla)%Q)
    by (vm_compute; discriminate).
  assert (Hhi : (three_eighths lulla < inject_Z (1 + 1) / inject_Z 4 - rounding_margin)%Q)
    by (vm_compute; reflexivity).
  destruct (@C3_relocation 51201 three_eighths run_wait lulla run_wait_named Hact Hin
              (@three_eighths_lo lulla) (@three_eighths_hi lulla)) as (Hmove & _).
  destruct (Hmove Hel) as (_ & _ & Hlm & Hls & _ & _ & Hidx & _).
  destruct (Hidx 1 (conj (Z.le_0_1) (eq_refl : 1 < 4)) Hlo Hhi) as (Hcam & Hcam64).
  split; [exact run_wait_named|]. split; [exact Hact|]. split; [exact Hin|].
  split; [exact Hel|]. split; [exact Hlo|]. split; [exact Hhi|].
  split; [exact Hcam|]. split; [exact Hcam64|]. split; assumption.
Defined.

(** [lulla] has relocated to camera 3, the selected one: it is seen. *)
Lemma C4_surveillance_witness :
  named watching /\
  lastSeen (get lulla (anims (updateAI 51201 quarter watching))) = 51201.
Proof.
  split; [exact watching_named|].
  assert (Hact : Def.activeFrom (animDefs lulla) <= night watching) by (vm_compute; discriminate).
  assert (Hin : inOffice (get lulla (anims watching)) = false) by reflexivity.
  destruct (@C4_surveillance 51201 quarter watching lulla watching_named Hact Hin)
    as (_ & Hsingle & _).
  destruct (Hsingle 3 eq_refl eq_refl) as (Hseen & _).
  apply Hseen. vm_compute. reflexivity.
Defined.

(** [rust], unseen for 31000 ms on night 5 with the monitor closed. *)
Lemma C5_unseen_timeout_witness :
  named late_night /\
  lastSeen (get rust (anims late_night)) = 31000 - 31000 /\
  monitorOpen late_night = false /\
  inOffice (get rust (anims (updateAI 31000 quarter late_night))) = true /\
  entryCount rust (console (updateAI 31000 quarter late_night)) =
  S (entryCount rust (console late_night)).
Proof.
  assert (Hact : Def.activeFrom (animDefs rust) <= night late_night) by (vm_compute; discriminate).
  assert (Hin : inOffice (get rust (anims late_night)) = false) by reflexivity.
  assert (Hwait : ~ (interval_of (night late_night) (get rust (anims late_night))
                     < inject_Z (31000 - lastMove (get rust (anims late_night))))%Q)
    by (vm_compute; discriminate).
  destruct (@C5_unseen_timeout 31000 quarter late_night late_night_named Hact Hin)
    as (_ & Hscenario).
  destruct (Hscenario eq_refl eq_refl Hwait) as (H1 & H2 & _).
  split; [exact late_night_named|]. split; [reflexivity|]. split; [reflexivity|].
  split; [exact H1 | exact H2].
Defined.

(** In [run_wait], [lulla] arrives at camera 3 in this very call and rushes
    the open right door. *)
Lemma C9_lulla_rule_witness :
  named run_wait /\
  entryCount lulla (console (updateAI 51201 quarter run_wait)) =
  S (entryCount lulla (console run_wait)).
Proof.
  split; [exact run_wait_named|].
  destruct (@C9_lulla_rule 51201 quarter run_wait run_wait_named) as (Hiff & _).
  apply Hiff. vm_compute. repeat split; discriminate.
Defined.

(** In [run_frame], [lulla] is in the office: a second [updateAI] logs
    nothing more and registers no second timeout. *)
Lemma C6_breach_lifecycle_witness :
  named run_frame /\ inOffice (get lulla (anims run_frame)) = true /\
  entryCount lulla (console (updateAI 51201 quarter run_frame)) =
  entryCount lulla (console run_frame) /\
  pending lulla (timeouts (updateAI 51201 quarter run_frame)) =
  pending lulla (timeouts run_frame).
Proof.
  assert (Hin : inOffice (get lulla (anims run_frame)) = true) by (vm_compute; reflexivity).
  destruct C6_breach_lifecycle as (Hidle & _).
  destruct (Hidle 51201 quarter run_frame lulla run_frame_named Hin)
    as (_ & _ & _ & _ & H5 & H6).
  split; [exact run_frame_named|]. split; [exact Hin|]. split; [exact H5 | exact H6].
Defined.

(** The clock of the reachable state [run_frame] is within its bounds. *)
Lemma C7_night_clock_witness :
  reachable run_frame /\
  0 <= hour run_frame <= 7 /\ 1 <= night run_frame <= 7 /\ 0 <= power run_frame <= 100.
Proof.
  split; [exact run_frame_reachable|].
  destruct C7_night_clock as (_ & Hbounds & _).
  exact (Hbounds run_frame run_frame_reachable).
Defined.

(** Night 9 is outside the table. *)
Lemma C8_difficulty_interval_witness : (9 < 1 \/ 7 < 9) /\ speed 9 = 1.0%Q.
Proof.
  assert (H : 9 < 1 \/ 7 < 9) by (right; lia).
  split; [exact H|].
  destruct C8_difficulty_interval as (_ & Hout & _).
  exact (Hout 9 H).
Defined.

(** [patch] in the reachable state [run_frame]. *)
Lemma C10_patch_never_enters_witness :
  reachable run_frame /\ inOffice (get patch (anims run_frame)) = false.
Proof.
  split; [exact run_frame_reachable|].
  destruct (@C10_patch_never_enters run_frame run_frame_reachable) as (_ & Hout & _).
  exact Hout.
Defined.

(** * Further properties of the code *)

(** ** Where the agents are *)

Lemma outcome_located now us w k :
  named w ->
  (0 <= us k)%Q -> (us k < 1)%Q ->
  (exists c, cam (get k (anims w)) = Some c /\ In c (Def.allowed (animDefs k))) ->
  exists c, cam (fst (outcome now us w k)) = Some c /\ In c (Def.allowed (animDefs k)).
Proof.
  intros Hn H0 H1 Hloc.
  destruct (Z_lt_le_dec (night w) (Def.activeFrom (animDefs k))) as [Hd|Hact].
  { unfold outcome. rewrite animStep_dormant by (rewrite Hn; exact Hd). exact Hloc. }
  destruct (inOffice (get k (anims w))) eqn:Hin.
  { destruct (@outcome_breached now us w k Hin) as (_ & -> & _). exact Hloc. }
  destruct (@roaming_fields now us w k Hn Hact Hin) as (Hcam & _ & _).
  rewrite updateAI_get in Hcam. rewrite Hcam. unfold moveStep.
  destruct (JS.ltb _ _).
  - cbn [cam set_cam set_lastMove set_lastSeen name set_active].
    rewrite Hn. apply draw_member; [apply allowed_nonempty | exact H0 | exact H1].
  - exact Hloc.
Qed.

Lemma step_located w w' : named w -> located w -> step w w' -> located w'.
Proof.
  intros Hn Hl Hs k.
  destruct (step_get k Hs) as [E|[[b E]|[(us & Hus & E)|[t E]]]]; rewrite E.
  - apply Hl.
  - apply Hl.
  - destruct (Hus k) as (H0 & H1). apply outcome_located; auto.
  - apply Hl.
Qed.

Lemma agents_located w : reachable w -> located w.
Proof.
  induction 1 as [stamps t0|w w' Hr IH Hs].
  - intros k. exists (Def.start (animDefs k)). split; [destruct k; reflexivity|].
    destruct k; cbn; auto.
  - apply (@step_located w w' (reachable_named Hr) IH Hs).
Qed.

(** X1. In every state of a run, every agent stands at a location of its
    own allowed list: the location is never [undefined] and never a camera
    outside the list. *)
Theorem agents_stay_in_allowed w :
  reachable w ->
  forall k, exists c, cam (get k (anims w)) = Some c /\ In c (Def.allowed (animDefs k)).
Proof.
  intros Hr. exact (agents_located Hr).
Qed.

Lemma agents_stay_in_allowed_witness :
  reachable run_frame /\
  exists c, cam (get lulla (anims run_frame)) = Some c /\
            In c (Def.allowed (animDefs lulla)).
Proof.
  split; [exact run_frame_reachable|].
  exact (@agents_stay_in_allowed run_frame run_frame_reachable lulla).
Defined.

(** ** Breaches and their timeouts *)

(** An event is a frame, an expired timeout, or it leaves the timeouts and
    every [inOffice] alone and does not turn the clock back. *)
Lemma step_kinds w w' :
  step w w' ->
  (timeouts w' = timeouts w /\ clock w <= clock w' /\
   forall k, inOffice (get k (anims w')) = inOffice (get k (anims w))) \/
  (exists us, w' = updateAI (clock w) us w) \/
  (exists pre due nm post,
     timeouts w = pre ++ (due, nm) :: post /\
     w' = entryExpired nm (set_timeouts (pre ++ post) w)).
Proof.
  intros Hs.
  destruct Hs as [w|w Hp|w u Ht H0 H1|w us Hus|w pre due nm post Ht Hd|w t Hst|w dt Hdt].
  - left. split; [reflexivity|]. split; [cbn; lia | reflexivity].
  - left. split; [destruct w; reflexivity|]. split; [destruct w; cbn; lia|].
    intros k. rewrite beginGamePlay_resume_get. reflexivity.
  - left. split; [|split].
    + unfold hourTick. destruct (negb (started w)); [reflexivity|].
      destruct (7 <? _); destruct w; reflexivity.
    + unfold hourTick. destruct (negb (started w)); [lia|].
      destruct (7 <? _); destruct w; cbn; lia.
    + intros k. destruct (hourTick_get k u w) as [E|[b E]]; rewrite E; reflexivity.
  - right; left. exists us. reflexivity.
  - right; right. exists pre, due, nm, post. auto.
  - left. unfold handleTap.
    destruct (inBar t); [destruct (monitorOpen (set_monitorOpen _ w))|];
      [| |destruct (monitorOpen w); [|destruct (leftHalf t)]];
      (split; [reflexivity|]; split; [cbn; lia | reflexivity]).
  - left. split; [reflexivity|]. split; [cbn; lia | reflexivity].
Qed.

(** Outside the office before and after [updateAI]: no call of
    [triggerEntry]. *)
Lemma outcome_quiet now us w k :
  named w ->
  inOffice (get k (anims w)) = false ->
  inOffice (fst (outcome now us w k)) = false ->
  snd (outcome now us w k) = [].
Proof.
  intros Hn Hin Hout.
  destruct (Z_lt_le_dec (night w) (Def.activeFrom (animDefs k))) as [Hd|Hact].
  - unfold outcome. rewrite animStep_dormant by (rewrite Hn; exact Hd). reflexivity.
  - destruct (@roaming_entry now us w k Hn Hact Hin) as (_ & Hio & Hcalls).
    rewrite updateAI_get in Hio, Hcalls. rewrite Hout in Hio.
    rewrite <- Hio in Hcalls. exact Hcalls.
Qed.

Lemma updateAI_clock now us w : clock (updateAI now us w) = clock w.
Proof. rewrite updateAI_eq. reflexivity. Qed.

Lemma pending_app k l1 l2 : pending k (l1 ++ l2) = pending k l1 ++ pending k l2.
Proof. apply filter_app. Qed.

Lemma pending_cons_same k d l : pending k ((d, k) :: l) = (d, k) :: pending k l.
Proof.
  unfold pending. cbn. rewrite (proj2 (AnimName_eqb_eq k k) eq_refl). reflexivity.
Qed.

Lemma pending_cons_other k j d l : j <> k -> pending k ((d, j) :: l) = pending k l.
Proof.
  intros Hne. unfold pending. cbn.
  destruct (AnimName_eqb j k) eqn:E; [apply AnimName_eqb_eq in E; contradiction|].
  reflexivity.
Qed.

Lemma step_timers_ok w w' : named w -> timers_ok w -> step w w' -> timers_ok w'.
Proof.
  intros Hn Hok Hs k. destruct (Hok k) as (Hin_office & Hout_office).
  destruct (step_kinds Hs) as [(Et & Hc & Ei)|[(us & ->)|(pre & due & nm & post & Et & ->)]].
  - rewrite Et, Ei. split; [|exact Hout_office].
    intros H. destruct (Hin_office H) as (d & Hd & Hle). exists d. split; [exact Hd | lia].
  - rewrite updateAI_get, updateAI_clock.
    destruct (inOffice (get k (anims w))) eqn:Hin.
    + destruct (@outcome_breached (clock w) us w k Hin) as (Hc & _ & _ & _ & Hstill).
      destruct (@no_entry_recorded (clock w) us w k Hn Hc) as (_ & Hp).
      cbv zeta in Hp. rewrite Hp, Hstill. split; [intros _; auto | discriminate].
    + destruct (inOffice (fst (outcome (clock w) us w k))) eqn:Hafter.
      * pose proof (@outcome_raised (clock w) us w k Hn Hin Hafter) as Hc.
        destruct (@entry_recorded (clock w) us w k Hn Hc) as (_ & Hp & _).
        cbv zeta in Hp. rewrite Hp, (Hout_office eq_refl).
        split; [|discriminate]. intros _. exists (clock w + ENTRY_MS).
        split; [reflexivity | lia].
      * pose proof (@outcome_quiet (clock w) us w k Hn Hin Hafter) as Hc.
        destruct (@no_entry_recorded (clock w) us w k Hn Hc) as (_ & Hp).
        cbv zeta in Hp. rewrite Hp. split; [discriminate | intros _; auto].
  - rewrite entryExpired_get.
    change (timeouts (entryExpired nm (set_timeouts (pre ++ post) w))) with (pre ++ post).
    change (clock (entryExpired nm (set_timeouts (pre ++ post) w))) with (clock w).
    change (anims (set_timeouts (pre ++ post) w)) with (anims w).
    change (clock (set_timeouts (pre ++ post) w)) with (clock w).
    rewrite Et, pending_app in Hin_office, Hout_office.
    rewrite pending_app.
    destruct (AnimName_eqb k nm) eqn:E.
    + apply AnimName_eqb_eq in E. subst nm.
      rewrite pending_cons_same in Hin_office, Hout_office.
      cbn [inOffice set_lastMove set_inOffice]. split; [discriminate|]. intros _.
      destruct (inOffice (get k (anims w))).
      * destruct (Hin_office eq_refl) as (d & Hd & _).
        destruct (pending k pre) as [|x l]; [|destruct l; discriminate].
        cbn in Hd. injection Hd as _ Hpost. rewrite Hpost. reflexivity.
      * specialize (Hout_office eq_refl).
        destruct (pending k pre); discriminate.
    + assert (Hne : nm <> k).
      { intros ->. rewrite (proj2 (AnimName_eqb_eq k k) eq_refl) in E. discriminate. }
      rewrite (pending_cons_other due post Hne) in Hin_office, Hout_office.
      split; assumption.
Qed.

(** X2. In every state of a run, an agent in the office has exactly one
    pending timeout, due no later than 2200 ms from now, and an agent
    outside the office has none: every breach ends, and no timeout ever runs
    for an agent that is not in the office. *)
Theorem breach_has_one_timeout w :
  reachable w ->
  forall k,
    (inOffice (get k (anims w)) = true ->
     exists d, pending k (timeouts w) = [(d, k)] /\ d <= clock w + 2200) /\
    (inOffice (get k (anims w)) = false -> pending k (timeouts w) = []).
Proof.
  induction 1 as [stamps t0|w w' Hr IH Hs].
  - intros k. split; [destruct k; discriminate | reflexivity].
  - apply (@step_timers_ok w w' (reachable_named Hr) IH Hs).
Qed.

Lemma breach_has_one_timeout_witness :
  reachable run_frame /\
  exists d, pending lulla (timeouts run_frame) = [(d, lulla)] /\
            d <= clock run_frame + 2200.
Proof.
  split; [exact run_frame_reachable|].
  destruct (@breach_has_one_timeout run_frame run_frame_reachable lulla) as (H & _).
  apply H. vm_compute. reflexivity.
Defined.

(** ** Timestamps *)

(** [updateAI] writes no timestamp other than [now]. *)
Lemma animStep_stamps now u w a :
  (lastMove (fst (animStep now u w a)) = lastMove a \/
   lastMove (fst (animStep now u w a)) = now) /\
  (lastSeen (fst (animStep now u w a)) = lastSeen a \/
   lastSeen (fst (animStep now u w a)) = now).
Proof.
  unfold animStep. cbn.
  destruct (night w >=? _); cbn; [|auto].
  destruct (inOffice a); cbn; [auto|].
  set (i := interval_of (night w) (set_active true a)).
  destruct (entryStep_fields now i (doorLeftClosed w) (doorRightClosed w)
              (watchStep now (monitorOpen w) (monitorSingle w)
                 (moveStep now u i (set_active true a))))
    as (_ & _ & -> & -> & _ & _).
  destruct (watchStep_fields now (monitorOpen w) (monitorSingle w)
              (moveStep now u i (set_active true a))) as (_ & _ & -> & _ & _ & _).
  unfold watchStep, moveStep.
  destruct (JS.ltb i _); destruct (monitorOpen w); try destruct (monitorSingle w);
    try destruct (JS.same_cam _ _); cbn; auto.
Qed.

Lemma step_stamps w w' k :
  step w w' ->
  clock w <= clock w' /\
  (lastMove (get k (anims w')) = lastMove (get k (anims w)) \/
   lastMove (get k (anims w')) = clock w) /\
  (lastSeen (get k (anims w')) = lastSeen (get k (anims w)) \/
   lastSeen (get k (anims w')) = clock w).
Proof.
  intros Hs.
  destruct Hs as [w|w Hp|w u Ht H0 H1|w us Hus|w pre due nm post Ht Hd|w t Hst|w dt Hdt].
  - cbn. split; [lia | auto].
  - rewrite beginGamePlay_resume_get. split; [destruct w; cbn; lia | cbn; auto].
  - split.
    + unfold hourTick. destruct (negb (started w)); [lia|].
      destruct (7 <? _); destruct w; cbn; lia.
    + destruct (hourTick_get k u w) as [E|[b E]]; rewrite E; cbn; auto.
  - unfold loop. rewrite updateAI_get, updateAI_clock. split; [lia|].
    apply animStep_stamps.
  - rewrite entryExpired_get. split; [cbn; lia|].
    destruct (AnimName_eqb k nm) eqn:E; [|cbn; auto].
    apply AnimName_eqb_eq in E. subst nm. cbn. auto.
  - rewrite handleTap_anims. split; [|auto].
    unfold handleTap.
    destruct (inBar t); [destruct (monitorOpen (set_monitorOpen _ w))|];
      [| |destruct (monitorOpen w); [|destruct (leftHalf t)]]; cbn; lia.
  - cbn. split; [lia | auto].
Qed.

Lemma step_stamped w w' : stamped w -> step w w' -> stamped w'.
Proof.
  intros Hst Hs k. destruct (Hst k) as (Hm & Hl).
  destruct (step_stamps k Hs) as (Hc & [Em|Em] & [El|El]); rewrite Em, El; lia.
Qed.

(** X3. Along a run that starts with no timestamp in the future, no
    timestamp is ever in the future, and [lastMove] and [lastSeen] of every
    agent never decrease. *)
Theorem timestamps_never_go_back w w' :
  (forall k, lastMove (get k (anims w)) <= clock w /\
             lastSeen (get k (anims w)) <= clock w) ->
  run w w' ->
  forall k,
    lastMove (get k (anims w)) <= lastMove (get k (anims w')) <= clock w' /\
    lastSeen (get k (anims w)) <= lastSeen (get k (anims w')) <= clock w'.
Proof.
  intros Hst Hrun.
  induction Hrun as [w|w w' w'' Hrun IH Hs].
  - intros k. destruct (Hst k). lia.
  - intros k. specialize (IH Hst).
    assert (Hmid : stamped w') by (intros j; destruct (IH j); lia).
    destruct (IH k) as (Hm & Hl). destruct (Hmid k) as (Hm' & Hl').
    destruct (step_stamps k Hs) as (Hc & [Em|Em] & [El|El]); rewrite Em, El; lia.
Qed.

Lemma run_wait_to_frame : run run_wait run_frame.
Proof.
  eapply run_step; [apply run_nil|].
  unfold run_frame. apply step_frame. intros _. split; [discriminate | reflexivity].
Defined.

Lemma timestamps_never_go_back_witness :
  lastSeen (get lulla (anims run_wait)) <= lastSeen (get lulla (anims run_frame))
  <= clock run_frame.
Proof.
  assert (Hst : forall k, lastMove (get k (anims run_wait)) <= clock run_wait /\
                          lastSeen (get k (anims run_wait)) <= clock run_wait).
  { intros k; destruct k; vm_compute; split; discriminate. }
  destruct (@timestamps_never_go_back run_wait run_frame Hst run_wait_to_frame lulla)
    as (_ & H).
  exact H.
Defined.

(** ** Two calls of [updateAI] at the same time *)

Lemma set_active_same a : active a = true -> set_active true a = a.
Proof. destruct a; cbn; intros ->; reflexivity. Qed.

Lemma interval_positive n a : ~ (interval_of n a < inject_Z 0)%Q.
Proof.
  intros H. unfold interval_of in H.
  pose proof (Q.le_max_l 700 (inject_Z (baseInterval a) * speed n)) as Hle.
  apply (Qlt_not_le _ _ H). eapply Qle_trans; [|exact Hle]. discriminate.
Qed.

Lemma watchStep_twice now mo ms a :
  watchStep now mo ms (watchStep now mo ms a) = watchStep now mo ms a.
Proof.
  unfold watchStep. destruct mo; [|reflexivity].
  destruct ms as [c|]; [|reflexivity].
  destruct (JS.same_cam (cam a) c) eqn:E; cbn [cam set_lastSeen]; rewrite E; reflexivity.
Qed.

(** After the relocation block has run at [now], running it again at [now]
    does nothing. *)
Lemma moveStep_settled now u u' i a :
  ~ (i < inject_Z 0)%Q ->
  moveStep now u' i (moveStep now u i a) = moveStep now u i a.
Proof.
  intros Hpos.
  destruct (JS.ltb i (inject_Z (now - lastMove a))) eqn:E.
  - apply ltb_lt in E. rewrite (moveStep_elapsed now u a E).
    apply moveStep_waiting. cbn [lastMove set_lastMove set_lastSeen set_cam].
    rewrite Z.sub_diag. exact Hpos.
  - assert (Hw : ~ (i < inject_Z (now - lastMove a))%Q).
    { intros H. apply ltb_lt in H. congruence. }
    rewrite (moveStep_waiting now u a Hw). apply moveStep_waiting. exact Hw.
Qed.

Lemma animStep_again now u u' w a :
  animStep now u' w (fst (animStep now u w a)) = (fst (animStep now u w a), []).
Proof.
  destruct (Z_lt_le_dec (night w) (Def.activeFrom (animDefs (name a)))) as [Hd|Hact].
  { rewrite (@animStep_dormant now u w a Hd). cbn [fst].
    rewrite animStep_dormant by exact Hd. reflexivity. }
  destruct (inOffice a) eqn:Hin.
  { rewrite (@animStep_breached now u w a Hact Hin). cbn [fst].
    rewrite animStep_breached by assumption. reflexivity. }
  rewrite (@animStep_roaming now u w a Hact Hin).
  set (i := interval_of (night w) a).
  set (m := moveStep now u i (set_active true a)).
  set (s := watchStep now (monitorOpen w) (monitorSingle w) m).
  destruct (watchStep_fields now (monitorOpen w) (monitorSingle w) m)
    as (Wn & Wc & Wm & Wi & Wa & Wb).
  destruct (moveStep_fields now u i (set_active true a)) as (Mn & Mi & Ma & Mb).
  fold m in Mn, Mi, Ma, Mb. fold s in Wn, Wc, Wm, Wi, Wa, Wb.
  assert (Hname : name s = name a) by (rewrite Wn, Mn; reflexivity).
  assert (Hout : inOffice s = false) by (rewrite Wi, Mi; exact Hin).
  assert (Hon : active s = true) by (rewrite Wa, Ma; reflexivity).
  assert (Hi : interval_of (night w) s = i).
  { unfold interval_of, i. rewrite Wb, Mb. reflexivity. }
  rewrite entryStep_eq.
  destruct (fires now i (doorLeftClosed w) (doorRightClosed w) s) eqn:Hf; cbn [fst].
  - rewrite animStep_breached; [|cbn; rewrite Hname; exact Hact | reflexivity].
    rewrite set_active_same by exact Hon. reflexivity.
  - rewrite animStep_roaming; [|rewrite Hname; exact Hact | exact Hout].
    rewrite Hi, (set_active_same _ Hon).
    assert (Hstay : moveStep now u' i s = s).
    { apply moveStep_waiting. rewrite Wm. intros H.
      assert (Hm2 : moveStep now u' i m = m)
        by (apply moveStep_settled; apply interval_positive).
      unfold moveStep in Hm2 at 1.
      rewrite (proj2 (ltb_lt _ _) H) in Hm2.
      assert (Hl : lastMove m = now) by (rewrite <- Hm2; reflexivity).
      rewrite Hl, Z.sub_diag in H. exact (@interval_positive (night w) a H). }
    rewrite Hstay. unfold s at 1. rewrite watchStep_twice. fold s.
    rewrite entryStep_eq, Hf. reflexivity.
Qed.

(** X4. A second [updateAI] at the same [now], whatever its draws, changes
    nothing: no agent moves, no timestamp changes, nothing is logged and no
    timeout is registered. *)
Theorem updateAI_twice now us us' w :
  updateAI now us' (updateAI now us w) = updateAI now us w.
Proof.
  assert (Ho : forall k, outcome now us' (updateAI now us w) k =
                         (fst (outcome now us w k), [])).
  { intros k. unfold outcome at 1. rewrite updateAI_get.
    rewrite (@animStep_env now (us' k) w (updateAI now us w))
      by (rewrite updateAI_eq; reflexivity).
    apply animStep_again. }
  rewrite (updateAI_eq now us' (updateAI now us w)).
  unfold entries. rewrite !Ho. cbn [fst snd app map].
  rewrite !app_nil_r.
  rewrite (updateAI_eq now us w). reflexivity.
Qed.

(** ** After the timeout *)

Lemma entryExpired_named nm w : named w -> named (entryExpired nm w).
Proof.
  intros Hn k. rewrite entryExpired_get.
  destruct (AnimName_eqb k nm) eqn:E; [|apply Hn].
  apply AnimName_eqb_eq in E. subst nm. cbn. apply Hn.
Qed.

(** The agent [k] right after its timeout callback, at the next [updateAI]
    that comes before its interval has elapsed again: it has not moved, its
    [lastMove] is the time of the callback, and whether it enters is decided
    by its rule on these fields. *)
Lemma after_expiry now us w k :
  named w ->
  Def.activeFrom (animDefs k) <= night w ->
  ~ (interval_of (night w) (get k (anims w)) < inject_Z (now - clock w))%Q ->
  let a := get k (anims w) in
  let w1 := entryExpired k w in
  let w2 := updateAI now us w1 in
  let a' := get k (anims w2) in
  cam a' = cam a /\ lastMove a' = clock w /\
  lastSeen a' = lastSeen (watchStep now (monitorOpen w) (monitorSingle w) a) /\
  name a' = k /\
  inOffice a' = fires now (interval_of (night w) a)
                      (doorLeftClosed w) (doorRightClosed w) (set_inOffice false a') /\
  (inOffice a' = true ->
   entryCount k (console w2) = S (entryCount k (console w)) /\
   In (clock w + ENTRY_MS, k) (timeouts w2)).
Proof.
  intros Hn Hact Hwait a w1 w2 a'.
  pose proof (entryExpired_named k Hn) as Hn1. fold w1 in Hn1.
  assert (Ea1 : get k (anims w1) = set_lastMove (clock w) (set_inOffice false a)).
  { unfold w1. rewrite entryExpired_get.
    rewrite (proj2 (AnimName_eqb_eq k k) eq_refl). reflexivity. }
  assert (Hact1 : Def.activeFrom (animDefs k) <= night w1) by exact Hact.
  assert (Hin1 : inOffice (get k (anims w1)) = false) by (rewrite Ea1; reflexivity).
  destruct (@roaming_fields now us w1 k Hn1 Hact1 Hin1) as (Hc & Hm & Hs).
  destruct (@roaming_entry now us w1 k Hn1 Hact1 Hin1) as (Hname & Hio & Hcalls).
  fold w2 in Hc, Hm, Hs, Hname, Hio, Hcalls. fold a' in Hc, Hm, Hs, Hname, Hio, Hcalls.
  rewrite Ea1 in Hc, Hm, Hs, Hio.
  change (night w1) with (night w) in Hc, Hm, Hs, Hio.
  change (monitorOpen w1) with (monitorOpen w) in Hs.
  change (monitorSingle w1) with (monitorSingle w) in Hs.
  change (doorLeftClosed w1) with (doorLeftClosed w) in Hio.
  change (doorRightClosed w1) with (doorRightClosed w) in Hio.
  change (interval_of (night w) (set_lastMove (clock w) (set_inOffice false a)))
    with (interval_of (night w) a) in Hc, Hm, Hs, Hio.
  rewrite moveStep_waiting in Hc, Hm, Hs by exact Hwait.
  split; [exact Hc|]. split; [exact Hm|]. split.
  { rewrite Hs. unfold watchStep. destruct (monitorOpen w); [|reflexivity].
    destruct (monitorSingle w) as [c|]; [|reflexivity].
    cbn [cam set_active set_lastMove set_inOffice].
    destruct (JS.same_cam (cam a) c); reflexivity. }
  split; [exact Hname|]. split; [exact Hio|].
  intros Hraised.
  assert (Hc1 : snd (outcome now us w1 k) = [k]).
  { apply outcome_raised; [exact Hn1 | exact Hin1|].
    rewrite <- updateAI_get. exact Hraised. }
  destruct (@entry_recorded now us w1 k Hn1 Hc1) as (H1 & _ & H3).
  split; [exact H1 | exact H3].
Qed.

(** X5. [vale] and [lulla] at camera 3 with the right door still open: at
    the first [updateAI] after the timeout of a breach (within 0.45 of the
    interval), the agent is put in the office again.  Only closing the right
    door during the 2200 ms ends the sequence of entries. *)
Theorem door_agents_reenter now us w k :
  k = vale \/ k = lulla ->
  named w ->
  Def.activeFrom (animDefs k) <= night w ->
  cam (get k (anims w)) = Some 3 ->
  doorRightClosed w = false ->
  clock w <= now ->
  (inject_Z (now - clock w) < interval_of (night w) (get k (anims w)) * 0.45)%Q ->
  let w2 := updateAI now us (entryExpired k w) in
  inOffice (get k (anims (entryExpired k w))) = false /\
  inOffice (get k (anims w2)) = true /\
  entryCount k (console w2) = S (entryCount k (console w)) /\
  In (clock w + ENTRY_MS, k) (timeouts w2).
Proof.
  intros Hk Hn Hact Hcam Hdoor Hafter Hsoon w2.
  assert (Hwait : ~ (interval_of (night w) (get k (anims w)) < inject_Z (now - clock w))%Q).
  { intros H.
    assert (H0 : (inject_Z 0 <= inject_Z (now - clock w))%Q)
      by (rewrite <- Zle_Qle; lia).
    change (inject_Z 0) with 0%Q in H0.
    set (x := inject_Z (now - clock w)) in *.
    set (i := interval_of (night w) (get k (anims w))) in *.
    lra. }
  destruct (@after_expiry now us w k Hn Hact Hwait) as (Hc & Hm & _ & Hname & Hio & Hrec).
  fold w2 in Hc, Hm, Hname, Hio, Hrec.
  assert (Hf : inOffice (get k (anims w2)) = true).
  { rewrite Hio. unfold fires. cbn [name cam lastMove set_inOffice].
    rewrite Hname, Hc, Hcam, Hm, Hdoor.
    destruct Hk as [-> | ->]; [reflexivity|].
    cbn [JS.same_cam Z.eqb Pos.eqb negb andb]. apply ltb_lt. exact Hsoon. }
  split.
  { rewrite entryExpired_get, (proj2 (AnimName_eqb_eq k k) eq_refl). reflexivity. }
  split; [exact Hf|]. apply Hrec. exact Hf.
Qed.

Lemma rust_fires now i dl dr a :
  name a = rust ->
  30000 < now - lastSeen a ->
  fires now i dl dr (set_inOffice false a) = true.
Proof.
  intros Hname Hlate.
  unfold fires. cbn [name lastSeen inOffice set_inOffice].
  rewrite Hname. cbv beta iota.
  rewrite (proj2 (Z.ltb_lt _ _) Hlate). reflexivity.
Qed.

(** X6. [rust], unseen for more than 30000 ms, with the monitor closed: the
    breach and its timeout leave [lastSeen] as it was, so at the first
    [updateAI] after the timeout (before the interval has elapsed again)
    [rust] is put in the office again. *)
Theorem rust_reenters now us w :
  named w ->
  Def.activeFrom (animDefs rust) <= night w ->
  monitorOpen w = false ->
  30000 < now - lastSeen (get rust (anims w)) ->
  ~ (interval_of (night w) (get rust (anims w)) < inject_Z (now - clock w))%Q ->
  let w2 := updateAI now us (entryExpired rust w) in
  lastSeen (get rust (anims (entryExpired rust w))) = lastSeen (get rust (anims w)) /\
  inOffice (get rust (anims w2)) = true /\
  entryCount rust (console w2) = S (entryCount rust (console w)) /\
  In (clock w + ENTRY_MS, rust) (timeouts w2).
Proof.
  intros Hn Hact Hclosed Hlate Hwait. cbv zeta.
  split.
  { rewrite entryExpired_get. reflexivity. }
  pose proof (@after_expiry now us w rust Hn Hact Hwait) as H. cbv zeta in H.
  destruct H as (_ & _ & Hs & Hname & Hio & Hrec).
  rewrite Hclosed in Hs. cbn [watchStep] in Hs.
  assert (Hf : inOffice (get rust (anims (updateAI now us (entryExpired rust w)))) = true).
  { rewrite Hio. apply rust_fires; [exact Hname | rewrite Hs; exact Hlate]. }
  split; [exact Hf | exact (Hrec Hf)].
Qed.

(** ** Keeping the agents out *)

(** An active agent outside the office stays outside when its rule does not
    fire. *)
Lemma stays_out now us w k :
  named w ->
  inOffice (get k (anims w)) = false ->
  (Def.activeFrom (animDefs k) <= night w ->
   fires now (interval_of (night w) (get k (anims w)))
         (doorLeftClosed w) (doorRightClosed w)
         (set_inOffice false (get k (anims (updateAI now us w)))) = false) ->
  let w' := updateAI now us w in
  inOffice (get k (anims w')) = false /\
  entryCount k (console w') = entryCount k (console w) /\
  pending k (timeouts w') = pending k (timeouts w).
Proof.
  intros Hn Hin Hf w'.
  assert (Hout : inOffice (get k (anims w')) = false).
  { destruct (Z_lt_le_dec (night w) (Def.activeFrom (animDefs k))) as [Hd|Hact].
    - unfold w'. rewrite updateAI_get. unfold outcome.
      rewrite animStep_dormant by (rewrite Hn; exact Hd). exact Hin.
    - destruct (@roaming_entry now us w k Hn Hact Hin) as (_ & Hio & _).
      unfold w'. rewrite Hio. apply Hf. exact Hact. }
  split; [exact Hout|].
  apply no_entry_recorded; [exact Hn|].
  apply outcome_quiet; [exact Hn | exact Hin|].
  rewrite <- updateAI_get. exact Hout.
Qed.

Lemma door_fires_closed now i dl a k :
  k = vale \/ k = lulla -> name a = k ->
  fires now i dl true a = false.
Proof.
  intros [-> | ->] Hname; unfold fires; rewrite Hname; cbv beta iota.
  - apply andb_false_r.
  - rewrite andb_false_r. reflexivity.
Qed.

(** X7. With the right door closed, one [updateAI] never puts [vale] or
    [lulla] in the office, wherever they are and whenever they moved. *)
Theorem right_door_keeps_out now us w k :
  k = vale \/ k = lulla ->
  named w ->
  doorRightClosed w = true ->
  inOffice (get k (anims w)) = false ->
  let w' := updateAI now us w in
  inOffice (get k (anims w')) = false /\
  entryCount k (console w') = entryCount k (console w) /\
  pending k (timeouts w') = pending k (timeouts w).
Proof.
  intros Hk Hn Hdoor Hin. apply stays_out; [exact Hn | exact Hin|].
  intros _. rewrite Hdoor. apply (@door_fires_closed now _ _ _ k Hk).
  cbn [name set_inOffice]. rewrite updateAI_get. unfold outcome.
  rewrite animStep_name. apply Hn.
Qed.

Lemma rust_fires_not now i dl dr a :
  name a = rust ->
  now - lastSeen a <= 30000 ->
  fires now i dl dr (set_inOffice false a) = false.
Proof.
  intros Hname Hrecent.
  unfold fires. cbn [name lastSeen inOffice set_inOffice].
  rewrite Hname. cbv beta iota.
  rewrite (proj2 (Z.ltb_ge _ _) Hrecent). reflexivity.
Qed.

(** X8. While the monitor shows the grid, or camera 6 alone, one [updateAI]
    of a run never puts [rust] in the office: [rust] only ever stands at
    camera 6, so it is seen at [now]. *)
Theorem watching_keeps_rust_out now us w :
  reachable w ->
  (0 <= us rust)%Q -> (us rust < 1)%Q ->
  monitorOpen w = true ->
  monitorSingle w = None \/ monitorSingle w = Some 6 ->
  inOffice (get rust (anims w)) = false ->
  let w' := updateAI now us w in
  inOffice (get rust (anims w')) = false /\
  entryCount rust (console w') = entryCount rust (console w) /\
  pending rust (timeouts w') = pending rust (timeouts w).
Proof.
  intros Hr H0 H1 Hopen Hview Hin.
  pose proof (reachable_named Hr) as Hn.
  apply stays_out; [exact Hn | exact Hin|].
  intros Hact. apply rust_fires_not.
  { rewrite updateAI_get. unfold outcome. rewrite animStep_name. apply Hn. }
  destruct (@roaming_fields now us w rust Hn Hact Hin) as (Hc & _ & Hs).
  assert (Hcam : cam (get rust (anims (updateAI now us w))) = Some 6).
  { destruct (@outcome_located now us w rust Hn H0 H1
                (@agents_located w Hr rust)) as (c & Hc' & Hin').
    rewrite updateAI_get, Hc'. cbn in Hin'. destruct Hin' as [<-|[]]. reflexivity. }
  rewrite Hs, Hopen. unfold watchStep.
  destruct Hview as [-> | ->].
  - cbn. lia.
  - rewrite <- Hc, Hcam. cbn. lia.
Qed.

(** X9. [rust] with [lastMove <= lastSeen] (as after every relocation) on a
    night on which its interval is at most 30000 ms (nights 6 and 7 of a
    run): one [updateAI] never puts it in the office.  Either it relocates,
    which refreshes [lastSeen], or it was seen less than an interval ago. *)
Theorem rust_harmless_on_fast_nights now us w :
  reachable w ->
  6 <= night w ->
  inOffice (get rust (anims w)) = false ->
  lastMove (get rust (anims w)) <= lastSeen (get rust (anims w)) ->
  let w' := updateAI now us w in
  (interval_of (night w) (get rust (anims w)) <= 30000)%Q /\
  inOffice (get rust (anims w')) = false /\
  entryCount rust (console w') = entryCount rust (console w) /\
  pending rust (timeouts w') = pending rust (timeouts w).
Proof.
  intros Hr Hnight Hin Hord.
  pose proof (reachable_named Hr) as Hn.
  destruct (reachable_clock_ok Hr) as (_ & (_ & Hn7) & _).
  assert (Hi : (interval_of (night w) (get rust (anims w)) <= 30000)%Q).
  { unfold interval_of. rewrite (reachable_baseInterval rust Hr).
    assert (Hcase : night w = 6 \/ night w = 7) by lia.
    destruct Hcase as [-> | ->]; vm_compute; discriminate. }
  cbv zeta. split; [exact Hi|].
  apply stays_out; [exact Hn | exact Hin|].
  intros Hact. apply rust_fires_not.
  { rewrite updateAI_get. unfold outcome. rewrite animStep_name. apply Hn. }
  destruct (@roaming_fields now us w rust Hn Hact Hin) as (_ & _ & Hs).
  cbv zeta in Hs. rewrite Hs.
  set (a := get rust (anims w)) in *.
  set (i := interval_of (night w) a) in *.
  assert (Hm : now - lastSeen (moveStep now (us rust) i (set_active true a)) <= 30000).
  { unfold moveStep. destruct (JS.ltb i _) eqn:E; cbn [lastSeen set_lastSeen].
    - lia.
    - apply ltb_ge in E. cbn [lastMove set_active] in E.
      assert (Hq : (inject_Z (now - lastMove a) <= inject_Z 30000)%Q)
        by (eapply Qle_trans; [exact E | exact Hi]).
      rewrite <- Zle_Qle in Hq. cbn [lastSeen set_active]. lia. }
  unfold watchStep. destruct (monitorOpen w); [|exact Hm].
  destruct (monitorSingle w) as [c|]; [|cbn; lia].
  destruct (JS.same_cam _ c); [cbn; lia | exact Hm].
Qed.

(** ** The left door *)

Lemma draw_patch_not_6 u : draw (Def.allowed (animDefs patch)) u <> Some 6.
Proof.
  unfold draw, JS.index.
  destruct (_ <? 0); [discriminate|].
  destruct (Z.to_nat _) as [|[|[|[|n]]]]; cbn; discriminate.
Qed.

Lemma same_cam_not c m : c <> Some m -> JS.same_cam c m = false.
Proof.
  intros H. destruct (JS.same_cam c m) eqn:E; [|reflexivity].
  apply same_cam_eq in E. contradiction.
Qed.

(** The flag of the left door is read by [patch]'s rule only, and that rule
    needs [patch] at camera 6. *)
Lemma fires_left_door now i dl dl' dr a :
  (name a = patch -> cam a <> Some 6) ->
  fires now i dl dr a = fires now i dl' dr a.
Proof.
  intros H. unfold fires. destruct (name a); try reflexivity.
  rewrite (same_cam_not (H eq_refl)). reflexivity.
Qed.

Lemma animStep_left_door now u b w a :
  (name a = patch -> cam a <> Some 6) ->
  animStep now u (set_doorLeftClosed b w) a = animStep now u w a.
Proof.
  intros Hcam. unfold animStep.
  change (night (set_doorLeftClosed b w)) with (night w).
  change (monitorOpen (set_doorLeftClosed b w)) with (monitorOpen w).
  change (monitorSingle (set_doorLeftClosed b w)) with (monitorSingle w).
  change (doorRightClosed (set_doorLeftClosed b w)) with (doorRightClosed w).
  change (doorLeftClosed (set_doorLeftClosed b w)) with b.
  destruct (negb _); [reflexivity|].
  destruct (inOffice _); [reflexivity|].
  set (a0 := set_active (night w >=? Def.activeFrom (animDefs (name a))) a).
  set (i := interval_of (night w) a0).
  set (s := watchStep now (monitorOpen w) (monitorSingle w) (moveStep now u i a0)).
  rewrite !entryStep_eq.
  rewrite (@fires_left_door now i b (doorLeftClosed w) (doorRightClosed w) s);
    [reflexivity|].
  destruct (watchStep_fields now (monitorOpen w) (monitorSingle w) (moveStep now u i a0))
    as (Wn & Wc & _).
  destruct (moveStep_fields now u i a0) as (Mn & _).
  fold s in Wn, Wc. rewrite Wn, Wc, Mn. cbn [name a0 set_active].
  intros Hp. unfold moveStep. destruct (JS.ltb i _).
  - cbn [cam set_cam set_lastMove set_lastSeen name a0 set_active].
    rewrite Hp. apply draw_patch_not_6.
  - cbn. apply Hcam. exact Hp.
Qed.

(** X10. In a run, the left door has no effect on the agents: [updateAI]
    with the left door open or closed gives the same agents, the same
    entries and the same timeouts. *)
Theorem left_door_has_no_effect now us b w :
  reachable w ->
  updateAI now us (set_doorLeftClosed b w) = set_doorLeftClosed b (updateAI now us w).
Proof.
  intros Hr.
  pose proof (reachable_named Hr) as Hn.
  destruct (reachable_patch_inv Hr) as ((_ & c & Hc & Hin) & _).
  assert (Ho : forall k, outcome now us (set_doorLeftClosed b w) k = outcome now us w k).
  { intros k. unfold outcome.
    change (anims (set_doorLeftClosed b w)) with (anims w).
    apply animStep_left_door. rewrite Hn. intros ->. rewrite Hc.
    cbn in Hin. destruct Hin as [<-|[<-|[<-|[]]]]; discriminate. }
  rewrite (updateAI_eq now us (set_doorLeftClosed b w)), (updateAI_eq now us w).
  unfold entries. rewrite !Ho. reflexivity.
Qed.

Lemma left_door_has_no_effect_witness :
  reachable run_wait /\
  updateAI 51201 quarter (set_doorLeftClosed true run_wait) =
  set_doorLeftClosed true (updateAI 51201 quarter run_wait).
Proof.
  assert (Hr : reachable run_wait).
  { unfold run_wait. eapply reach_step; [|apply step_time; lia].
    unfold run_start, newGame. eapply reach_step; [|apply step_preloaded; cbn; lia].
    eapply reach_step; [apply reach_loaded | apply step_menu]. }
  split; [exact Hr|].
  exact (@left_door_has_no_effect 51201 quarter true run_wait Hr).
Defined.

(** ** Taps *)

(** Only a tap changes the monitor. *)
Lemma step_monitor w w' :
  step w w' ->
  (monitorOpen w' = monitorOpen w /\ monitorSingle w' = monitorSingle w) \/
  (exists t, w' = handleTap t w).
Proof.
  intros Hs.
  destruct Hs as [w|w Hp|w u Ht H0 H1|w us Hus|w pre due nm post Ht Hd|w t Hst|w dt Hdt].
  - left. split; reflexivity.
  - left. destruct w; split; reflexivity.
  - left. unfold hourTick. destruct (negb (started w)); [split; reflexivity|].
    destruct (7 <? _); destruct w; split; reflexivity.
  - left. unfold loop. rewrite updateAI_eq. split; reflexivity.
  - left. split; reflexivity.
  - right. exists t. reflexivity.
  - left. split; reflexivity.
Qed.

Lemma handleTap_closed_null t w :
  (monitorOpen w = false -> monitorSingle w = None) ->
  monitorOpen (handleTap t w) = false -> monitorSingle (handleTap t w) = None.
Proof.
  intros Hinv. unfold handleTap.
  destruct (inBar t).
  - cbn [monitorOpen set_monitorOpen]. destruct (negb (monitorOpen w)) eqn:E; cbn.
    + discriminate.
    + reflexivity.
  - destruct (monitorOpen w) eqn:E.
    + cbn. rewrite E. discriminate.
    + destruct (leftHalf t); cbn; rewrite E; intros _; apply Hinv; reflexivity.
Qed.

(** X11. In every state of a run, no camera is selected while the monitor
    is closed; so a tap on the bar that opens the monitor always opens it on
    the grid. *)
Theorem closed_monitor_selects_nothing w :
  reachable w ->
  monitorOpen w = false ->
  monitorSingle w = None /\
  forall t, inBar t = true ->
    monitorOpen (handleTap t w) = true /\ monitorSingle (handleTap t w) = None.
Proof.
  intros Hr.
  assert (Hinv : monitorOpen w = false -> monitorSingle w = None).
  { induction Hr as [stamps t0|w w' Hr IH Hs]; [reflexivity|].
    destruct (step_monitor Hs) as [(-> & ->)|(t & ->)]; [exact IH|].
    apply handleTap_closed_null. exact IH. }
  intros Hclosed. split; [apply Hinv; exact Hclosed|].
  intros t Hbar. unfold handleTap. rewrite Hbar.
  cbn [monitorOpen set_monitorOpen]. rewrite Hclosed. cbn.
  split; [reflexivity | apply Hinv; exact Hclosed].
Qed.

Lemma closed_monitor_selects_nothing_witness :
  reachable run_frame /\ monitorSingle run_frame = None.
Proof.
  split; [exact run_frame_reachable|].
  destruct (@closed_monitor_selects_nothing run_frame run_frame_reachable eq_refl)
    as (H & _).
  exact H.
Defined.

(** X12. Two taps on the same spot undo each other: on the bar when no
    single camera is selected, and on a door (outside the bar, monitor
    closed). *)
Theorem tap_twice t w :
  (inBar t = true -> monitorSingle w = None -> handleTap t (handleTap t w) = w) /\
  (inBar t = false -> monitorOpen w = false -> handleTap t (handleTap t w) = w).
Proof.
  split.
  - intros Hbar Hnone. unfold handleTap. rewrite Hbar.
    destruct w as [st mo ms n h p dl dr an c con tos tk pl]. cbn in Hnone. subst ms.
    destruct mo; reflexivity.
  - intros Hbar Hclosed. unfold handleTap. rewrite Hbar.
    destruct w as [st mo ms n h p dl dr an c con tos tk pl]. cbn in Hclosed. subst mo.
    cbn. destruct (leftHalf t); cbn; rewrite negb_involutive; reflexivity.
Qed.

Lemma tap_twice_witness :
  handleTap (mkTap false None true) (handleTap (mkTap false None true) run_frame)
  = run_frame.
Proof.
  destruct (tap_twice (mkTap false None true) run_frame) as (_ & H).
  apply H; reflexivity.
Defined.

(** ** Hour ticks and the agents *)

(** X13. An hour tick of a started game in a run sets every [active] flag
    from the new night, never switches an active agent off, and leaves
    location, timestamps and [inOffice] of every agent alone. *)
Theorem hourTick_agents u w k :
  reachable w ->
  started w = true ->
  let a := get k (anims w) in
  let a' := get k (anims (hourTick u w)) in
  active a' = (night (hourTick u w) >=? Def.activeFrom (animDefs k)) /\
  (Def.activeFrom (animDefs k) <= night w -> active a' = true) /\
  cam a' = cam a /\ lastMove a' = lastMove a /\ lastSeen a' = lastSeen a /\
  inOffice a' = inOffice a.
Proof.
  intros Hr Hst a a'.
  destruct (reachable_clock_ok Hr) as (_ & (_ & Hn7) & _).
  destruct (hourTick_started u w Hst) as (_ & Hnight & _).
  assert (Ea : a' = set_active (night (hourTick u w) >=? Def.activeFrom (animDefs k)) a).
  { unfold a', a, hourTick. rewrite Hst. cbn [negb]. rewrite initFlags_get.
    destruct (7 <? _); destruct w as [? ? ? ? ? ? ? ? [? ? ? ?] ? ? ? ? ?];
      destruct k; reflexivity. }
  rewrite Ea. cbn [active cam lastMove lastSeen inOffice set_active].
  split; [reflexivity|]. split; [|auto].
  intros Hact. rewrite Z.geb_leb. apply Z.leb_le. rewrite Hnight.
  destruct (7 <? hour w + 1); lia.
Qed.

Lemma hourTick_agents_witness :
  reachable run_frame /\ started run_frame = true /\
  cam (get lulla (anims (hourTick 0.5 run_frame))) = cam (get lulla (anims run_frame)).
Proof.
  split; [exact run_frame_reachable|]. split; [reflexivity|].
  destruct (@hourTick_agents 0.5%Q run_frame lulla run_frame_reachable eq_refl)
    as (_ & _ & H & _).
  exact H.
Defined.

(** ** Image loading *)

Module AssetsFacts.
Import String.
#[local] Open Scope string_scope.

Lemma includes_In arr key : Assets.includes arr key = true <-> In key arr.
Proof.
  unfold Assets.includes. rewrite existsb_exists. split.
  - intros (x & Hin & E). apply String.eqb_eq in E. subst x. exact Hin.
  - intros Hin. exists key. split; [exact Hin | apply String.eqb_refl].
Qed.

(** X14. [loadImageKey] tries exactly two paths for a key: a camera key is
    looked up in [assets/cams/], jpg before png; a sprite key in
    [assets/animatronics/], png before jpg; every other key in [assets/],
    png before jpg.  The test on [extrasToLoad], "menu" and "cursor" never
    changes the paths. *)
Theorem imagePaths_shape key :
  (Assets.includes Assets.camKeys key = true ->
   Assets.imagePaths key =
   ["assets/cams/" ++ key ++ ".jpg"; "assets/cams/" ++ key ++ ".png"]) /\
  (Assets.includes Assets.camKeys key = false ->
   Assets.includes Assets.animSpriteKeys key = true ->
   Assets.imagePaths key =
   ["assets/animatronics/" ++ key ++ ".png"; "assets/animatronics/" ++ key ++ ".jpg"]) /\
  (Assets.includes Assets.camKeys key = false ->
   Assets.includes Assets.animSpriteKeys key = false ->
   Assets.imagePaths key = ["assets/" ++ key ++ ".png"; "assets/" ++ key ++ ".jpg"]).
Proof.
  split; [|split].
  - intros Hc. unfold Assets.imagePaths. rewrite Hc. reflexivity.
  - intros _ Hs. apply includes_In in Hs.
    cbn in Hs.
    repeat (destruct Hs as [<- | Hs]; [reflexivity|]).
    contradiction.
  - intros Hc Hs. unfold Assets.imagePaths. rewrite Hc, Hs.
    destruct (_ || _ || _); reflexivity.
Qed.

Lemma imagePaths_shape_witness :
  Assets.imagePaths "rust_idle" =
  ["assets/animatronics/rust_idle.png"; "assets/animatronics/rust_idle.jpg"].
Proof.
  destruct (imagePaths_shape "rust_idle") as (_ & H & _).
  apply H; reflexivity.
Defined.

Lemma tryPaths_None loads paths :
  Assets.tryPathsForImage loads paths = None <-> forall p, In p paths -> loads p = false.
Proof.
  induction paths as [|q rest IH]; cbn.
  - split; [intros _ p [] | reflexivity].
  - destruct (loads q) eqn:E.
    + split; [discriminate|]. intros H. rewrite (H q (or_introl eq_refl)) in E. discriminate.
    + rewrite IH. split.
      * intros H p [<-|Hp]; [exact E | apply H; exact Hp].
      * intros H p Hp. apply H. right. exact Hp.
Qed.

Lemma tryPaths_Some loads paths img :
  Assets.tryPathsForImage loads paths = Some img ->
  In img paths /\ loads img = true.
Proof.
  induction paths as [|q rest IH]; cbn; [discriminate|].
  destruct (loads q) eqn:E.
  - intros [= <-]. auto.
  - intros H. destruct (IH H). auto.
Qed.

Lemma lookup_assign imgs k v k' :
  Assets.lookup (Assets.assign imgs k v) k' =
  if String.eqb k k' then Some v else Assets.lookup imgs k'.
Proof.
  induction imgs as [|[j x] rest IH]; cbn.
  - reflexivity.
  - destruct (String.eqb j k) eqn:Ejk; cbn.
    + apply String.eqb_eq in Ejk. subst j.
      destruct (String.eqb k k'); reflexivity.
    + rewrite IH. destruct (String.eqb j k') eqn:Ejk'; [|reflexivity].
      apply String.eqb_eq in Ejk'. subst j. rewrite String.eqb_sym, Ejk. reflexivity.
Qed.

Lemma lookup_loadInto loads imgs k k' :
  Assets.lookup (Assets.loadInto loads imgs k) k' =
  match Assets.loadImageKey loads k with
  | Some img => if String.eqb k k' then Some img else Assets.lookup imgs k'
  | None => Assets.lookup imgs k'
  end.
Proof.
  unfold Assets.loadInto. destruct (Assets.loadImageKey loads k); [|reflexivity].
  apply lookup_assign.
Qed.

Lemma lookup_fold loads keys imgs key :
  Assets.lookup (fold_left (Assets.loadInto loads) keys imgs) key =
  if Assets.includes keys key then
    match Assets.loadImageKey loads key with
    | Some img => Some img
    | None => Assets.lookup imgs key
    end
  else Assets.lookup imgs key.
Proof.
  revert imgs. induction keys as [|k rest IH]; intros imgs; [reflexivity|].
  cbn [fold_left]. rewrite IH, lookup_loadInto.
  unfold Assets.includes. cbn [existsb]. fold (Assets.includes rest key).
  destruct (String.eqb key k) eqn:E.
  - apply String.eqb_eq in E. subst k. rewrite String.eqb_refl. cbn.
    destruct (Assets.includes rest key); destruct (Assets.loadImageKey loads key); reflexivity.
  - cbn. assert (E' : String.eqb k key = false).
    { rewrite String.eqb_sym. exact E. }
    rewrite E'. destruct (Assets.loadImageKey loads k); reflexivity.
Qed.

(** X15. After the image part of [preloadAll]: a key of the preload list
    whose image loads is bound to the first of its two paths that loads; a
    key of the list whose two paths both fail, and every key outside the
    list, keep what [assets.imgs] held before.  A missing image never
    removes or replaces an entry. *)
Theorem preloadImages_lookup loads imgs key :
  let after := Assets.lookup (Assets.preloadImages loads imgs) key in
  (In key Assets.preloadKeys ->
   forall img, Assets.loadImageKey loads key = Some img ->
     after = Some img /\ In img (Assets.imagePaths key) /\ loads img = true /\
     (img = hd img (Assets.imagePaths key) \/ loads (hd img (Assets.imagePaths key)) = false)) /\
  (In key Assets.preloadKeys ->
   (forall p, In p (Assets.imagePaths key) -> loads p = false) ->
   after = Assets.lookup imgs key) /\
  (~ In key Assets.preloadKeys -> after = Assets.lookup imgs key).
Proof.
  intros after. unfold after, Assets.preloadImages. rewrite lookup_fold.
  split; [|split].
  - intros Hin img Himg. rewrite (proj2 (includes_In _ _) Hin), Himg.
    split; [reflexivity|].
    destruct (tryPaths_Some _ _ Himg) as (H1 & H2). split; [exact H1|]. split; [exact H2|].
    unfold Assets.loadImageKey in Himg.
    destruct (Assets.imagePaths key) as [|p rest]; [discriminate|].
    cbn in Himg |- *. destruct (loads p); [left; congruence | right; reflexivity].
  - intros Hin Hfail. rewrite (proj2 (includes_In _ _) Hin).
    unfold Assets.loadImageKey. rewrite (proj2 (tryPaths_None _ _) Hfail). reflexivity.
  - intros Hout. destruct (Assets.includes Assets.preloadKeys key) eqn:E; [|reflexivity].
    apply includes_In in E. contradiction.
Qed.

Lemma preloadImages_lookup_witness :
  Assets.lookup (Assets.preloadImages (fun p => String.eqb p "assets/scanlines.jpg") [])
                "scanlines" = Some "assets/scanlines.jpg".
Proof.
  destruct (preloadImages_lookup (fun p => String.eqb p "assets/scanlines.jpg") []
              "scanlines") as (H & _).
  assert (Hin : In "scanlines" Assets.preloadKeys) by (vm_compute; tauto).
  destruct (H Hin "assets/scanlines.jpg" eq_refl) as (E & _).
  exact E.
Defined.

End AssetsFacts.

(** ** What the camera views show *)

Lemma values_get t a : In a (Object_values t) <-> exists j, a = get j t.
Proof.
  unfold Object_values. cbn [In]. split.
  - intros [<-|[<-|[<-|[<-|[]]]]];
      [exists vale | exists patch | exists lulla | exists rust]; reflexivity.
  - intros (j & ->). destruct j; cbn; auto.
Qed.

Lemma drawn_iff (f : Anim -> bool) w k :
  named w ->
  In k (map name (filter f (Object_values (anims w)))) <-> f (get k (anims w)) = true.
Proof.
  intros Hn. rewrite in_map_iff. split.
  - intros (a & Hname & Hin). apply filter_In in Hin. destruct Hin as (Hin & Hf).
    apply values_get in Hin. destruct Hin as (j & ->).
    rewrite Hn in Hname. subst j. exact Hf.
  - intros Hf. exists (get k (anims w)). split; [apply Hn|].
    apply filter_In. split; [|exact Hf]. apply values_get. exists k. reflexivity.
Qed.

Lemma onCamera_true id a :
  onCamera id a = true <-> active a = true /\ inOffice a = false /\ cam a = Some id.
Proof.
  unfold onCamera. rewrite !andb_true_iff, negb_true_iff, same_cam_eq. tauto.
Qed.

Lemma shownAt_iff id w k :
  named w ->
  In k (shownAt id w) <->
  active (get k (anims w)) = true /\ inOffice (get k (anims w)) = false /\
  cam (get k (anims w)) = Some id.
Proof.
  intros Hn. unfold shownAt. rewrite (drawn_iff (onCamera id) k Hn).
  apply onCamera_true.
Qed.

Lemma shownInOffice_iff w k :
  named w ->
  In k (shownInOffice w) <-> inOffice (get k (anims w)) = true.
Proof. intros Hn. apply (drawn_iff inOffice). exact Hn. Qed.

(** X16. In a run, an agent drawn on camera [id] has [id] in its allowed
    list, is drawn on no other camera, and is not drawn in the office. *)
Theorem camera_shows_allowed id w k :
  reachable w ->
  In k (shownAt id w) ->
  In id (Def.allowed (animDefs k)) /\
  (forall id', In k (shownAt id' w) -> id' = id) /\
  ~ In k (shownInOffice w).
Proof.
  intros Hr Hshown.
  pose proof (reachable_named Hr) as Hn.
  destruct (proj1 (shownAt_iff id k Hn) Hshown) as (_ & Hout & Hcam).
  destruct (@agents_located w Hr k) as (c & Hc & Hin).
  assert (E : c = id) by congruence. subst c.
  split; [exact Hin|]. split.
  - intros id' H'. destruct (proj1 (shownAt_iff id' k Hn) H') as (_ & _ & Hcam').
    congruence.
  - intros Hoff. pose proof (proj1 (shownInOffice_iff k Hn) Hoff). congruence.
Qed.

Lemma camera_shows_allowed_witness :
  reachable run_wait /\ In lulla (shownAt 1 run_wait) /\
  In 1 (Def.allowed (animDefs lulla)).
Proof.
  assert (Hr : reachable run_wait).
  { unfold run_wait. eapply reach_step; [|apply step_time; lia].
    unfold run_start, newGame. eapply reach_step; [|apply step_preloaded; cbn; lia].
    eapply reach_step; [apply reach_loaded | apply step_menu]. }
  assert (Hs : In lulla (shownAt 1 run_wait)) by (vm_compute; auto).
  split; [exact Hr|]. split; [exact Hs|].
  destruct (@camera_shows_allowed 1 run_wait lulla Hr Hs) as (H & _).
  exact H.
Defined.

Lemma shownAt_fields id w k :
  named w ->
  In k (shownAt id w) ->
  active (get k (anims w)) = true /\ inOffice (get k (anims w)) = false /\
  cam (get k (anims w)) = Some id.
Proof. intros Hn H. exact (proj1 (shownAt_iff id k Hn) H). Qed.

Lemma updateAI_named now us w : named w -> named (updateAI now us w).
Proof.
  intros Hn j. rewrite updateAI_get. unfold outcome. rewrite animStep_name. apply Hn.
Qed.

#[local] Unset Implicit Arguments.

Lemma not_waiting_at_open_door now us w k :
  k = vale ->
  named w ->
  In k (shownAt 3 (updateAI now us w)) ->
  doorRightClosed w = true.
Proof.
  intros Hk Hn Hshown.
  destruct (@shownAt_fields 3 (updateAI now us w) k (updateAI_named now us Hn) Hshown)
    as (Hactive & Hout & Hcam).
  destruct (doorRightClosed w) eqn:Hdoor; [reflexivity|]. exfalso.
  destruct (inOffice (get k (anims w))) eqn:Hin.
  { destruct (@outcome_breached now us w k Hin) as (_ & _ & _ & _ & Hstill).
    rewrite updateAI_get, Hstill in Hout. discriminate Hout. }
  destruct (Z_lt_le_dec (night w) (Def.activeFrom (animDefs k))) as [Hd|Hact].
  { rewrite updateAI_get in Hactive. unfold outcome in Hactive.
    rewrite animStep_dormant in Hactive by (rewrite Hn; exact Hd).
    discriminate Hactive. }
  pose proof (@door_rule now us w k 3 (doorRightClosed w)
                (or_introl (conj Hk (conj eq_refl eq_refl))) Hn Hact Hin Hcam Hdoor)
    as H.
  cbv zeta in H. destruct H as (Hio & _).
  rewrite Hio in Hout. discriminate Hout.
Qed.

(** X17. After [updateAI], [vale] is never drawn on camera 3 unless the
    right door is closed: with the door open, a [vale] at camera 3 is in the
    office by the end of the same call. *)
Theorem vale_never_waits_at_open_door now us w :
  named w ->
  In vale (shownAt 3 (updateAI now us w)) ->
  doorRightClosed w = true.
Proof.
  intros Hn Hshown.
  exact (@not_waiting_at_open_door now us w vale eq_refl Hn Hshown).
Qed.

#[local] Set Implicit Arguments.

Lemma vale_never_waits_at_open_door_witness :
  named (set_doorRightClosed true (set_night 3 run_wait)) /\
  In vale (shownAt 3 (updateAI 51201 (fun _ => 0.5%Q)
                        (set_doorRightClosed true (set_night 3 run_wait)))) /\
  doorRightClosed (set_doorRightClosed true (set_night 3 run_wait)) = true.
Proof.
  assert (Hn : named (set_doorRightClosed true (set_night 3 run_wait)))
    by (intros k; destruct k; reflexivity).
  assert (Hs : In vale (shownAt 3 (updateAI 51201 (fun _ => 0.5%Q)
                                  (set_doorRightClosed true (set_night 3 run_wait)))))
    by (vm_compute; auto).
  split; [exact Hn|]. split; [exact Hs|].
  exact (@vale_never_waits_at_open_door 51201 (fun _ => 0.5%Q)
           (set_doorRightClosed true (set_night 3 run_wait)) Hn Hs).
Defined.

(** ** The Cassidy overlay *)

(** X18. [updateCassidy] with the overlay enabled and both draws in [0,1).
    A glitch starts only when none is running and [now] is past [next]; it
    is still running when the call returns, ends between 1000 and 2400 ms
    after [now], and the next one is scheduled between 8000 and 23000 ms
    after [now].  A running glitch keeps its [end] and [next] and is switched
    off by the first call with [now] past [end].  So a glitch always ends
    before the next one may start. *)
Theorem updateCassidy_glitch now u1 u2 g :
  (0 <= u1)%Q -> (u1 < 1)%Q -> (0 <= u2)%Q -> (u2 < 1)%Q ->
  let g' := updateCassidy now u1 u2 true g in
  (g_active g = false -> (g_next g < inject_Z now)%Q ->
   g_active g' = true /\
   (inject_Z now + 1000 <= g_end g')%Q /\ (g_end g' <= inject_Z now + 2400)%Q /\
   (inject_Z now + 8000 <= g_next g')%Q /\ (g_next g' <= inject_Z now + 23000)%Q) /\
  (g_active g = false -> ~ (g_next g < inject_Z now)%Q -> g' = g) /\
  (g_active g = true ->
   g_end g' = g_end g /\ g_next g' = g_next g /\
   g_active g' = negb (JS.ltb (g_end g) (inject_Z now))) /\
  ((g_active g = true -> (g_end g < g_next g)%Q) ->
   (g_active g' = true -> (g_end g' < g_next g')%Q)) /\
  updateCassidy now u1 u2 false g = g.
Proof.
  intros H0 H1 H2 H3 g'. unfold g'. clear g'.
  destruct g as [nx ac en]. cbn [g_next g_active g_end].
  assert (Hlive : JS.ltb (inject_Z now + (1000 + u1 * 1400)) (inject_Z now) = false).
  { apply ltb_ge. set (t := inject_Z now). lra. }
  assert (Hstart : updateCassidy now u1 u2 true (mkGlitch nx false en) =
                   if JS.ltb nx (inject_Z now)
                   then mkGlitch (inject_Z now + (8000 + u2 * 15000)) true
                                 (inject_Z now + (1000 + u1 * 1400))
                   else mkGlitch nx false en).
  { unfold updateCassidy. cbn [negb g_next g_active g_end].
    destruct (JS.ltb nx (inject_Z now)); cbn [andb negb g_next g_active g_end].
    - rewrite Hlive. reflexivity.
    - reflexivity. }
  assert (Hrun : updateCassidy now u1 u2 true (mkGlitch nx true en) =
                 mkGlitch nx (negb (JS.ltb en (inject_Z now))) en).
  { unfold updateCassidy. cbn [negb g_next g_active g_end].
    rewrite andb_false_r. cbn [andb g_next g_active g_end].
    destruct (JS.ltb en (inject_Z now)); reflexivity. }
  split; [|split; [|split; [|split]]].
  - intros -> Hnext. rewrite Hstart, (proj2 (ltb_lt _ _) Hnext).
    cbn [g_active g_end g_next]. set (t := inject_Z now). repeat split; lra.
  - intros -> Hnext. rewrite Hstart.
    destruct (JS.ltb nx (inject_Z now)) eqn:E; [apply ltb_lt in E; contradiction|].
    reflexivity.
  - intros ->. rewrite Hrun. cbn. auto.
  - intros Hinv. destruct ac.
    + rewrite Hrun. cbn [g_active g_end g_next]. intros _. apply Hinv. reflexivity.
    + rewrite Hstart. destruct (JS.ltb nx (inject_Z now)); cbn [g_active g_end g_next].
      * intros _. set (t := inject_Z now). lra.
      * intros H. discriminate H.
  - reflexivity.
Qed.

Lemma updateCassidy_glitch_witness :
  g_active (updateCassidy 9000 0.5 0.5 true glitch0) = true /\
  (inject_Z 9000 + 1000 <= g_end (updateCassidy 9000 0.5 0.5 true glitch0))%Q.
Proof.
  assert (A : (0 <= 0.5)%Q) by (unfold Qle; simpl; lia).
  assert (B : (0.5 < 1)%Q) by (unfold Qlt; simpl; lia).
  destruct (@updateCassidy_glitch 9000 0.5 0.5 glitch0 A B A B) as (H & _).
  assert (C : (g_next glitch0 < inject_Z 9000)%Q) by (unfold Qlt; simpl; lia).
  destruct (H eq_refl C) as (Ha & He & _).
  split; [exact Ha | exact He].
Defined.

(** ** Power and hour *)

(** X19. [power] and [hour] are read by nothing but the hour ticker: the
    agents, the entries, the timeouts and the effect of a tap are the same
    whatever the power level and the hour; a power of 0 changes nothing. *)
Theorem power_and_hour_have_no_effect p h w :
  (forall now us,
     updateAI now us (set_hour h (set_power p w)) =
     set_hour h (set_power p (updateAI now us w))) /\
  (forall t, handleTap t (set_hour h (set_power p w)) =
             set_hour h (set_power p (handleTap t w))) /\
  (forall nm, entryExpired nm (set_hour h (set_power p w)) =
              set_hour h (set_power p (entryExpired nm w))).
Proof.
  split; [|split].
  - intros now us.
    assert (Ho : forall k, outcome now us (set_hour h (set_power p w)) k = outcome now us w k).
    { intros k. unfold outcome. apply animStep_env; reflexivity. }
    rewrite (updateAI_eq now us (set_hour h (set_power p w))), (updateAI_eq now us w).
    unfold entries. rewrite !Ho. reflexivity.
  - intros t. unfold handleTap.
    change (monitorOpen (set_hour h (set_power p w))) with (monitorOpen w).
    destruct (inBar t).
    + cbn [monitorOpen set_monitorOpen]. destruct (negb (monitorOpen w)); reflexivity.
    + destruct (monitorOpen w); [reflexivity|]. destruct (leftHalf t); reflexivity.
  - intros nm. reflexivity.
Qed.

(** ** The further properties at concrete states *)

Lemma run_due_named : named run_due.
Proof. intros k; destruct k; reflexivity. Defined.

Lemma door_agents_reenter_witness :
  named run_due /\ cam (get lulla (anims run_due)) = Some 3 /\
  doorRightClosed run_due = false /\
  inOffice (get lulla (anims (updateAI 53401 quarter (entryExpired lulla run_due)))) = true.
Proof.
  assert (Hact : Def.activeFrom (animDefs lulla) <= night run_due) by (vm_compute; discriminate).
  assert (Hcam : cam (get lulla (anims run_due)) = Some 3) by (vm_compute; reflexivity).
  assert (Hdoor : doorRightClosed run_due = false) by reflexivity.
  assert (Hclock : clock run_due <= 53401) by (vm_compute; discriminate).
  assert (Hsoon : (inject_Z (53401 - clock run_due)
                   < interval_of (night run_due) (get lulla (anims run_due)) * 0.45)%Q)
    by (vm_compute; reflexivity).
  destruct (@door_agents_reenter 53401 quarter run_due lulla (or_intror eq_refl)
              run_due_named Hact Hcam Hdoor Hclock Hsoon) as (_ & H & _).
  split; [exact run_due_named|]. split; [exact Hcam|]. split; [exact Hdoor | exact H].
Defined.

Lemma rust_reenters_witness :
  named late_night /\ monitorOpen late_night = false /\
  inOffice (get rust (anims (updateAI 31000 quarter (entryExpired rust late_night)))) = true.
Proof.
  assert (Hact : Def.activeFrom (animDefs rust) <= night late_night) by (vm_compute; discriminate).
  assert (Hlate : 30000 < 31000 - lastSeen (get rust (anims late_night))) by (vm_compute; reflexivity).
  assert (Hwait : ~ (interval_of (night late_night) (get rust (anims late_night))
                     < inject_Z (31000 - clock late_night))%Q)
    by (vm_compute; discriminate).
  destruct (@rust_reenters 31000 quarter late_night late_night_named Hact eq_refl Hlate Hwait)
    as (_ & H & _).
  split; [exact late_night_named|]. split; [reflexivity | exact H].
Defined.

Lemma right_door_keeps_out_witness :
  named (set_doorRightClosed true run_wait) /\
  inOffice (get lulla (anims (updateAI 51201 quarter (set_doorRightClosed true run_wait))))
  = false.
Proof.
  assert (Hn : named (set_doorRightClosed true run_wait))
    by (intros k; destruct k; reflexivity).
  destruct (@right_door_keeps_out 51201 quarter (set_doorRightClosed true run_wait) lulla
              (or_intror eq_refl) Hn eq_refl eq_refl) as (H & _).
  split; [exact Hn | exact H].
Defined.

Lemma hourTick_tickers u w : tickers (hourTick u w) = tickers w.
Proof.
  unfold hourTick. destruct (negb (started w)); [reflexivity|].
  destruct (7 <? _); destruct w; reflexivity.
Qed.

Lemma ticks_reachable n w :
  reachable w -> (0 < tickers w)%nat ->
  reachable (Nat.iter n (hourTick 0) w) /\
  (0 < tickers (Nat.iter n (hourTick 0) w))%nat.
Proof.
  intros Hr Ht. induction n as [|n (IHr & IHt)]; [auto|].
  rewrite !Nat.iter_succ. split.
  - eapply reach_step; [exact IHr|].
    apply step_hour; [exact IHt | discriminate | reflexivity].
  - rewrite hourTick_tickers. exact IHt.
Qed.

Lemma run_night6_reachable : reachable run_night6.
Proof.
  unfold run_night6. apply ticks_reachable.
  - unfold run_start, newGame. eapply reach_step; [|apply step_preloaded; cbn; lia].
    eapply reach_step; [apply reach_loaded | apply step_menu].
  - cbn. lia.
Qed.

Lemma rust_harmless_on_fast_nights_witness :
  reachable run_night6 /\ night run_night6 = 6 /\
  inOffice (get rust (anims (updateAI 3600000 quarter run_night6))) = false.
Proof.
  assert (Hnight : 6 <= night run_night6) by (vm_compute; discriminate).
  assert (Hord : lastMove (get rust (anims run_night6))
                 <= lastSeen (get rust (anims run_night6))) by (vm_compute; discriminate).
  destruct (@rust_harmless_on_fast_nights 3600000 quarter run_night6 run_night6_reachable
              Hnight eq_refl Hord) as (_ & H & _).
  split; [exact run_night6_reachable|]. split; [vm_compute; reflexivity | exact H].
Defined.

Lemma run_start_reachable : reachable run_start.
Proof.
  unfold run_start, newGame. eapply reach_step; [|apply step_preloaded; cbn; lia].
  eapply reach_step; [apply reach_loaded | apply step_menu].
Qed.

Lemma run_rust_watched_reachable : reachable run_rust_watched.
Proof.
  unfold run_rust_watched. eapply reach_step; [|apply step_tap; vm_compute; reflexivity].
  unfold run_rust_unseen. eapply reach_step; [|apply step_time; lia].
  unfold run_rust_awake.
  eapply reach_step;
    [|apply step_frame; intros k; split; [vm_compute; discriminate | reflexivity]].
  eapply reach_step; [|apply step_time; lia].
  unfold run_night5. apply ticks_reachable; [exact run_start_reachable | vm_compute; lia].
Qed.

(** Night 5: [rust] is awake, has not moved for 31000 ms and is not yet due
    to move, and nothing has seen it for as long.  With the monitor open on
    the grid the frame refreshes [lastSeen] and [rust] stays out; the same
    frame with the monitor closed sends it into the office. *)
Lemma watching_keeps_rust_out_witness :
  reachable run_rust_watched /\
  night run_rust_watched = 5 /\
  active (get rust (anims run_rust_watched)) = true /\
  monitorOpen run_rust_watched = true /\ monitorSingle run_rust_watched = None /\
  inOffice (get rust (anims run_rust_watched)) = false /\
  clock run_rust_watched - lastSeen (get rust (anims run_rust_watched)) = 31000 /\
  clock run_rust_watched - lastMove (get rust (anims run_rust_watched)) = 31000 /\
  inOffice (get rust (anims (loop quarter run_rust_unseen))) = true /\
  inOffice (get rust (anims (updateAI 2911000 quarter run_rust_watched))) = false /\
  lastSeen (get rust (anims (updateAI 2911000 quarter run_rust_watched))) = 2911000 /\
  lastMove (get rust (anims (updateAI 2911000 quarter run_rust_watched))) = 2880000.
Proof.
  destruct (@watching_keeps_rust_out 2911000 quarter run_rust_watched
              run_rust_watched_reachable (@quarter_lo rust) (@quarter_hi rust)
              eq_refl (or_introl eq_refl) eq_refl) as (H & _).
  split; [exact run_rust_watched_reachable|].
  split; [vm_compute; reflexivity|]. split; [vm_compute; reflexivity|].
  split; [reflexivity|]. split; [reflexivity|]. split; [vm_compute; reflexivity|].
  split; [vm_compute; reflexivity|]. split; [vm_compute; reflexivity|].
  split; [vm_compute; reflexivity|]. split; [exact H|].
  split; vm_compute; reflexivity.
Defined.
